(** * foilgen: NACA 4-digit airfoil generator

    A shallow embedding of [foilgen.py] and the properties of its geometry
    pipeline: [parse_naca], [cosine_spacing], [thickness_distribution],
    [camber_line], [generate_naca4], [map_to_3d], [validate_geometry],
    [compute_n_per_surface_from_total] and the computational part of [main].

    Numbers.  Python [int] is [Z].  A [float] that the program computes with
    sin, cos, atan, sqrt and polynomials is a real number of [R]: the
    development follows the formulas in exact arithmetic.  The places where
    the outcome of a run depends on binary64 are kept as they are:
    - [(int(total_points) + 1) / 2] is Python's true division of two
      integers, a correctly rounded binary64 value; it is computed with the
      binary64 operations of [SpecFloat] (precision 53, emax 1024);
    - a float that is not finite (the chord can be [inf] or [nan]) is the
      value [NonFin], which [validate_geometry] rejects; the product of a
      finite chord and a coordinate is followed in exact arithmetic, and the
      statements about runs with a cambered profile are made for the chords
      for which no such product exceeds [binary64_max];
    - whether two neighbouring values of [cosine_spacing] differ is decided
      on binary64 numbers, in [Binary64].
    A division of Python floats by zero raises [ZeroDivisionError] and is
    modelled as such.

    Strings.  After the parser the program compares strings with 'X', 'Y'
    and 'Z' only, and a [str] is a [string] of the code points 0..255
    ([PyStr]).  The parser is given a second time over lists of arbitrary
    code points ([parse_naca_u]), with the Unicode database as a parameter. *)

From Stdlib Require Import Reals Lra Lia Psatz ZArith List String Ascii Bool.
From Stdlib Require Import Floats.SpecFloat.
From Stdlib Require Import Machin.
Import ListNotations.

Local Open Scope Z_scope.

(** ** Exceptions and the error monad *)

(** Every failure of the core is a Python exception.  The two [ValueError]s of
    the parser are told apart by where they are raised. *)
Inductive error : Type :=
| InvalidCodeFormat    (* ValueError("Input must be 4 digits!") *)
| InvalidLiteral       (* ValueError raised by int() on a non-decimal digit *)
| InvalidAxis          (* ValueError("normal_axis must be X, Y, or Z") *)
| NonFiniteGeometry    (* ValueError("Generated coordinates contain NaN ...") *)
| DegenerateGeometry   (* ValueError("Degenerate geometry: ...") *)
| EmptyReduction       (* ValueError of numpy's min/max on an empty array *)
| ShapeMismatch        (* ValueError of numpy on arrays of different length *)
| NaNToInteger         (* ValueError of math.ceil on nan *)
| ZeroDivisionError
| OverflowError.

Inductive result (A : Type) : Type :=
| Ok (a : A)
| Err (e : error).
Arguments Ok {A} a.
Arguments Err {A} e.

Definition bind {A B : Type} (r : result A) (k : A -> result B) : result B :=
  match r with
  | Ok a => k a
  | Err e => Err e
  end.

Declare Scope result_scope.
Delimit Scope result_scope with result.
Notation "x <- r ;; k" := (bind r (fun x => k))
  (at level 61, r at next level, right associativity) : result_scope.
Notation "' pat <- r ;; k" := (bind r (fun x => match x with pat => k end))
  (at level 61, pat pattern, r at next level, right associativity) : result_scope.
Local Open Scope result_scope.

Definition is_ok {A : Type} (r : result A) : bool :=
  match r with Ok _ => true | Err _ => false end.

(** ** Python strings

    A [str] is a [string] whose characters are the code points 0..255.  The
    character classes below are those of Python on that range. *)
Module PyStr.

Definition code_point (c : ascii) : N := N_of_ascii c.

(** [str.isspace] on one character: TAB..CR, FS..US, SPACE, NEL, NBSP. *)
Definition isspace (c : ascii) : bool :=
  let n := code_point c in
  ((9 <=? n) && (n <=? 13) || (28 <=? n) && (n <=? 32)
   || (n =? 133) || (n =? 160))%N.

(** The characters that are decimal digits: '0'..'9'. *)
Definition isdecimal (c : ascii) : bool :=
  let n := code_point c in ((48 <=? n) && (n <=? 57))%N.

(** [str.isdigit] on one character: the decimal digits and the superscript
    digits (code points 178, 179 and 185), which are digits but not
    decimal. *)
Definition isdigit_char (c : ascii) : bool :=
  let n := code_point c in
  (isdecimal c || (n =? 178) || (n =? 179) || (n =? 185))%N.

Definition chars (s : string) : list ascii := list_ascii_of_string s.

Fixpoint lstrip (l : list ascii) : list ascii :=
  match l with
  | c :: l' => if isspace c then lstrip l' else l
  | [] => []
  end.

Definition rstrip (l : list ascii) : list ascii := rev (lstrip (rev l)).

(** [s.strip()] *)
Definition strip (l : list ascii) : list ascii := rstrip (lstrip l).

(** [s.isdigit()]: false on the empty string. *)
Definition isdigit (l : list ascii) : bool :=
  match l with
  | [] => false
  | _ => forallb isdigit_char l
  end.

Definition digit_value (c : ascii) : Z := Z.of_N (code_point c) - 48.

Fixpoint decimal_value (acc : Z) (l : list ascii) : Z :=
  match l with
  | [] => acc
  | c :: l' => decimal_value (10 * acc + digit_value c) l'
  end.

(** [int(s)] on the arguments the program gives it, which are slices of a
    string that passed [isdigit]: the value when every character is a
    decimal digit, a [ValueError] otherwise. *)
Definition int (l : list ascii) : result Z :=
  match l with
  | [] => Err InvalidLiteral
  | _ => if forallb isdecimal l then Ok (decimal_value 0 l)
         else Err InvalidLiteral
  end.

(** [s.upper()].  Only the letters a..z are mapped: the result is compared
    with 'X', 'Y' and 'Z' alone, and no other character has one of these
    three as its upper case. *)
Definition upper_char (c : ascii) : ascii :=
  let n := code_point c in
  if ((97 <=? n) && (n <=? 122))%N then ascii_of_N (n - 32) else c.

Definition upper (l : list ascii) : list ascii := map upper_char l.

End PyStr.

(** ** parse_naca *)

Local Open Scope R_scope.

Definition parse_naca (code : string) : result (R * R * R) :=
  let code := PyStr.strip (PyStr.chars code) in
  if negb (List.length code =? 4)%nat || negb (PyStr.isdigit code)
  then Err InvalidCodeFormat
  else
    d0 <- PyStr.int (firstn 1 code) ;;
    d1 <- PyStr.int (firstn 1 (skipn 1 code)) ;;
    d23 <- PyStr.int (skipn 2 code) ;;
    let m := IZR d0 / 100 in
    let p := IZR d1 / 10 in
    let t := IZR d23 / 100 in
    Ok (m, p, t).

(** ** Strings over all of Unicode

    [PyStr] has the characters below code point 256, which is where the
    program tells anything apart after the parser.  The parser itself also
    reads the characters above: [strip], [isdigit] and [int] take the class
    of a character from the Unicode database of the interpreter, which has
    white space and digits of many scripts.  For the parser a string is
    therefore also given as the list of its code points, and the database,
    which is not part of the program, is a parameter. *)
Record unicode_db : Type := mk_unicode_db {
  db_isspace : N -> bool;      (* str.isspace on one character *)
  db_isdigit : N -> bool;      (* str.isdigit on one character *)
  db_decimal : N -> option Z   (* the value of a decimal digit, None for
                                  every other character *)
}.

Section Unicode.

Variable db : unicode_db.

Fixpoint lstrip_u (l : list N) : list N :=
  match l with
  | c :: l' => if db_isspace db c then lstrip_u l' else l
  | [] => []
  end.

Definition rstrip_u (l : list N) : list N := rev (lstrip_u (rev l)).

(** [s.strip()] *)
Definition strip_u (l : list N) : list N := rstrip_u (lstrip_u l).

(** [s.isdigit()]: false on the empty string. *)
Definition isdigit_u (l : list N) : bool :=
  match l with
  | [] => false
  | _ => forallb (db_isdigit db) l
  end.

Definition isdecimal_char (c : N) : bool :=
  match db_decimal db c with Some _ => true | None => false end.

(** The number that decimal digits write, [None] when a character is not a
    decimal digit. *)
Fixpoint decimal_value_u (acc : Z) (l : list N) : option Z :=
  match l with
  | [] => Some acc
  | c :: l' =>
      match db_decimal db c with
      | Some d => decimal_value_u (10 * acc + d)%Z l'
      | None => None
      end
  end.

(** [int(s)] on the arguments the program gives it, which are slices of a
    string that passed [isdigit]: every decimal digit, of whatever script, is
    read as its value; any other character is a [ValueError]. *)
Definition int_u (l : list N) : result Z :=
  match l with
  | [] => Err InvalidLiteral
  | _ => match decimal_value_u 0 l with
         | Some v => Ok v
         | None => Err InvalidLiteral
         end
  end.

Definition parse_naca_u (code : list N) : result (R * R * R) :=
  let code := strip_u code in
  if negb (List.length code =? 4)%nat || negb (isdigit_u code)
  then Err InvalidCodeFormat
  else
    d0 <- int_u (firstn 1 code) ;;
    d1 <- int_u (firstn 1 (skipn 1 code)) ;;
    d23 <- int_u (skipn 2 code) ;;
    let m := IZR d0 / 100 in
    let p := IZR d1 / 10 in
    let t := IZR d23 / 100 in
    Ok (m, p, t).

End Unicode.

(** The part of the database below code point 256, the classes of [PyStr]. *)
Definition latin1 : unicode_db :=
  {| db_isspace := fun n =>
       ((9 <=? n) && (n <=? 13) || (28 <=? n) && (n <=? 32)
        || (n =? 133) || (n =? 160))%N;
     db_isdigit := fun n =>
       ((48 <=? n) && (n <=? 57) || (n =? 178) || (n =? 179) || (n =? 185))%N;
     db_decimal := fun n =>
       if ((48 <=? n) && (n <=? 57))%N then Some (Z.of_N n - 48)%Z else None |}.

(** [latin1] with the ten Arabic-Indic digits, code points 1632 to 1641. *)
Definition latin1_arabic_indic : unicode_db :=
  {| db_isspace := db_isspace latin1;
     db_isdigit := fun n => (db_isdigit latin1 n || (1632 <=? n) && (n <=? 1641))%N;
     db_decimal := fun n =>
       if ((1632 <=? n) && (n <=? 1641))%N then Some (Z.of_N n - 1632)%Z
       else db_decimal latin1 n |}.

(** The code points of a string of [PyStr]. *)
Definition code_points (s : string) : list N :=
  map PyStr.code_point (PyStr.chars s).

(** ** Arrays of floats

    A one-dimensional numpy array is a list; arithmetic on arrays is
    elementwise. *)

Definition Reqb (a b : R) : bool := if Req_dec_T a b then true else false.
Definition Rltb (a b : R) : bool := if Rlt_dec a b then true else false.

Definition zeros_like {A : Type} (x : list A) : list R := map (fun _ => 0) x.

Fixpoint map2 {A B C : Type} (f : A -> B -> C) (a : list A) (b : list B)
  : list C :=
  match a, b with
  | u :: a', v :: b' => f u v :: map2 f a' b'
  | _, _ => []
  end.

(** [np.any(mask)] *)
Definition any (mask : list bool) : bool := existsb (fun b => b) mask.

(** [a[mask] = v[mask]]: the masked positions of [a] take the values that [v]
    has there. *)
Definition assign_where (mask : list bool) (v a : list R) : list R :=
  map2 (fun (b : bool) (va : R * R) => if b then fst va else snd va)
       mask (combine v a).

(** [np.linspace(start, stop, num)], end point included: [num] samples
    [start + i * step] with [step = (stop - start) / (num - 1)]. *)
Definition linspace (start stop : R) (num : nat) : list R :=
  let step := (stop - start) / INR (num - 1) in
  map (fun i => start + INR i * step) (seq 0 num).

(** ** cosine_spacing *)

Definition cosine_spacing (n : nat) : list R :=
  let beta := linspace 0 PI n in
  map (fun b => 0.5 * (1 - cos b)) beta.

(** ** thickness_distribution *)

Definition thickness_at (t x : R) : R :=
  let sqrtx := sqrt (Rmax x 0) in
  5 * t * (0.2969 * sqrtx - 0.1260 * x - 0.3516 * x ^ 2
           + 0.2843 * x ^ 3 - 0.1015 * x ^ 4).

Definition thickness_distribution (x : list R) (t : R) : list R :=
  map (thickness_at t) x.

(** ** camber_line *)

(** The two segments: camber value and slope before and after the location
    [p] of the maximum camber. *)
Definition forward_yc (m p x : R) : R := (m / p ^ 2) * (2 * p * x - x ^ 2).
Definition forward_dyc (m p x : R) : R := (2 * m / p ^ 2) * (p - x).
Definition aft_yc (m p x : R) : R :=
  (m / (1 - p) ^ 2) * ((1 - 2 * p) + 2 * p * x - x ^ 2).
Definition aft_dyc (m p x : R) : R := (2 * m / (1 - p) ^ 2) * (p - x).

(** A float division raises on a zero divisor. *)
Definition divisor (d : R) : result R :=
  if Reqb d 0 then Err ZeroDivisionError else Ok d.

Definition camber_line (x : list R) (m p : R) : result (list R * list R) :=
  if Reqb m 0 || Reqb p 0 then Ok (zeros_like x, zeros_like x)
  else
    let yc := zeros_like x in
    let dyc := zeros_like x in
    let idx1 := map (fun xi => Rltb xi (p + 1e-12)) x in
    let idx2 := map negb idx1 in
    '(yc, dyc) <-
      (if any idx1 then
         _ <- divisor (p ^ 2) ;;
         Ok (assign_where idx1 (map (forward_yc m p) x) yc,
             assign_where idx1 (map (forward_dyc m p) x) dyc)
       else Ok (yc, dyc)) ;;
    '(yc, dyc) <-
      (if any idx2 then
         _ <- divisor ((1 - p) ^ 2) ;;
         Ok (assign_where idx2 (map (aft_yc m p) x) yc,
             assign_where idx2 (map (aft_dyc m p) x) dyc)
       else Ok (yc, dyc)) ;;
    Ok (yc, dyc).

(** ** generate_naca4 *)

Record surfaces : Type := mkSurfaces {
  xu : list R;  yu : list R;  (* upper surface *)
  xl : list R;  yl : list R   (* lower surface *)
}.

(** Lines 53 to 61: the parameter sequence and the two surfaces. *)
Definition surface_points (m p t : R) (n : nat) : result surfaces :=
  let x := cosine_spacing n in
  '(yc, dyc) <- camber_line x m p ;;
  let yt := thickness_distribution x t in
  let theta := map atan dyc in
  let off_x := map2 Rmult yt (map sin theta) in
  let off_y := map2 Rmult yt (map cos theta) in
  Ok {| xu := map2 Rminus x off_x;  yu := map2 Rplus yc off_y;
        xl := map2 Rplus x off_x;   yl := map2 Rminus yc off_y |}.

(** Lines 63 to 74: the upper surface reversed, then the lower surface
    without its first point ([a[1:]]) when it has more than one point, whole
    otherwise. *)
Definition assemble_loop (s : surfaces) : list R * list R :=
  let xu_rev := rev (xu s) in
  let yu_rev := rev (yu s) in
  let '(xl_tail, yl_tail) :=
    if (1 <? List.length (xl s))%nat then (skipn 1 (xl s), skipn 1 (yl s))
    else (xl s, yl s) in
  (xu_rev ++ xl_tail, yu_rev ++ yl_tail).

(** The effective number of points per surface, [max(3, int(n))]. *)
Definition effective_n (n_points_per_surface : Z) : nat :=
  Z.to_nat (Z.max 3 n_points_per_surface).

Definition generate_naca4 (code : string) (n_points_per_surface : Z)
  : result (list R * list R * (R * R * R)) :=
  '(m, p, t) <- parse_naca code ;;
  let n := effective_n n_points_per_surface in
  s <- surface_points m p t n ;;
  let '(x_combined, y_combined) := assemble_loop s in
  Ok (x_combined, y_combined, (m, p, t)).

(** ** map_to_3d *)

(** A float that may be [inf] or [nan].  The geometry of [generate_naca4] is
    finite; the chord length comes from the command line and need not be. *)
Inductive npfloat : Type :=
| Fin (r : R)
| NonFin.

Definition point3 : Type := npfloat * npfloat * npfloat.

(** [scale * a]: a product with [inf] or [nan] is [inf] or [nan]. *)
Definition scale_array (scale : npfloat) (a : list R) : list npfloat :=
  map (fun v => match scale with Fin c => Fin (c * v) | NonFin => NonFin end) a.

Definition zeros3 {A : Type} (a : list A) : list npfloat :=
  map (fun _ => Fin 0) a.

(** [np.vstack([X, Y, Z]).T]: one row per point; the three arrays must have
    the same length. *)
Definition vstack_T (X Y Z : list npfloat) : result (list point3) :=
  if (List.length X =? List.length Y)%nat && (List.length Y =? List.length Z)%nat
  then Ok (combine (combine X Y) Z)
  else Err ShapeMismatch.

(** [s.upper()] as a string. *)
Definition normalized (normal : string) : string :=
  string_of_list_ascii (PyStr.upper (PyStr.chars normal)).

Definition map_to_3d (x2d y2d : list R) (normal_axis : string)
  (chord_length : npfloat) : result (list point3) :=
  let norm := normalized normal_axis in
  if negb (String.eqb norm "X" || String.eqb norm "Y" || String.eqb norm "Z")
  then Err InvalidAxis
  else
    let scale := chord_length in
    if String.eqb norm "X" then
      vstack_T (zeros3 x2d) (scale_array scale x2d) (scale_array scale y2d)
    else if String.eqb norm "Y" then
      vstack_T (scale_array scale x2d) (zeros3 x2d) (scale_array scale y2d)
    else
      vstack_T (scale_array scale x2d) (scale_array scale y2d) (zeros3 x2d).

(** ** validate_geometry *)

Definition point3R : Type := R * R * R.

Definition finite_value (v : npfloat) : option R :=
  match v with Fin r => Some r | NonFin => None end.

Definition finite_point (q : point3) : option point3R :=
  let '(a, b, c) := q in
  match finite_value a, finite_value b, finite_value c with
  | Some x, Some y, Some z => Some (x, y, z)
  | _, _, _ => None
  end.

(** The rows of [coords] as real triples when [np.isfinite(coords).all()]. *)
Fixpoint all_finite (coords : list point3) : option (list point3R) :=
  match coords with
  | [] => Some []
  | q :: rest =>
      match finite_point q, all_finite rest with
      | Some r, Some rs => Some (r :: rs)
      | _, _ => None
      end
  end.

Definition inject_point (r : point3R) : point3 :=
  let '(x, y, z) := r in (Fin x, Fin y, Fin z).

Definition colX (pts : list point3R) : list R := map (fun q => fst (fst q)) pts.
Definition colY (pts : list point3R) : list R := map (fun q => snd (fst q)) pts.
Definition colZ (pts : list point3R) : list R := map (fun q => snd q) pts.

(** Minimum and maximum of a column that is not empty. *)
Definition amin (a : list R) : R :=
  match a with [] => 0 | v :: a' => fold_left Rmin a' v end.
Definition amax (a : list R) : R :=
  match a with [] => 0 | v :: a' => fold_left Rmax a' v end.

Definition span (a : list R) : R := amax a - amin a.

(** [maxs - mins], one span per axis. *)
Definition spans (pts : list point3R) : R * R * R :=
  (span (colX pts), span (colY pts), span (colZ pts)).

Definition validate_geometry (coords : list point3) : result bool :=
  match all_finite coords with
  | None => Err NonFiniteGeometry
  | Some [] => Err EmptyReduction
  | Some pts =>
      let '(sx, sy, sz) := spans pts in
      if Reqb sx 0 && Reqb sy 0 && Reqb sz 0 then Err DegenerateGeometry
      else Ok true
  end.

(** ** compute_n_per_surface_from_total *)

Module PyFloat.

Definition prec : Z := 53.
Definition emax : Z := 1024.

(** [a / b] on two integers: the quotient rounded once, to the nearest
    binary64 value, ties to even; [OverflowError] when that is out of
    range. *)
Definition int_truediv (a b : Z) : result spec_float :=
  match b, a with
  | Z0, _ => Err ZeroDivisionError
  | _, Z0 => Ok (S754_zero (b <? 0)%Z)
  | _, _ =>
      let sign := xorb (a <? 0)%Z (b <? 0)%Z in
      let '(mz, ez, lz) :=
        SFdiv_core_binary prec emax (Z.abs a) 0 (Z.abs b) 0 in
      match binary_round_aux prec emax sign mz ez lz with
      | S754_infinity _ => Err OverflowError
      | q => Ok q
      end
  end.

(** [math.ceil(f)] *)
Definition ceil (f : spec_float) : result Z :=
  match f with
  | S754_zero _ => Ok 0%Z
  | S754_finite s m e =>
      let v := if s then Zneg m else Zpos m in
      Ok (if (0 <=? e)%Z then v * 2 ^ e else - ((- v) / 2 ^ (- e)))%Z
  | S754_infinity _ => Err OverflowError
  | S754_nan => Err NaNToInteger
  end.

End PyFloat.

Definition compute_n_per_surface_from_total (total_points : Z) : result Z :=
  q <- PyFloat.int_truediv (total_points + 1) 2 ;;
  n_est <- PyFloat.ceil q ;;
  Ok (Z.max 3 n_est).

(** ** cosine_spacing in binary64

    The formulas of [cosine_spacing] are followed in exact arithmetic above.
    How close two neighbouring values of the sequence can come is a question
    of the binary64 arithmetic that numpy computes with, and for that the
    same two lines are written here on binary64 numbers, one element at a
    time: the operations are those of [SpecFloat], and [np.cos] is the exact
    cosine rounded to the nearest binary64 number, ties to even. *)
Module Binary64.

Definition add : spec_float -> spec_float -> spec_float :=
  SFadd PyFloat.prec PyFloat.emax.
Definition sub : spec_float -> spec_float -> spec_float :=
  SFsub PyFloat.prec PyFloat.emax.
Definition mul : spec_float -> spec_float -> spec_float :=
  SFmul PyFloat.prec PyFloat.emax.
Definition div : spec_float -> spec_float -> spec_float :=
  SFdiv PyFloat.prec PyFloat.emax.

Definition zero : spec_float := S754_zero false.
Definition half : spec_float := S754_finite false 4503599627370496 (-53).
Definition one : spec_float := S754_finite false 4503599627370496 (-52).

(** [math.pi], 0x1.921fb54442d18p+1 *)
Definition pi : spec_float := S754_finite false 7074237752028440 (-51).

(** The float of an integer (exact below 2^53). *)
Definition of_int (k : Z) : spec_float :=
  binary_normalize PyFloat.prec PyFloat.emax k 0 false.

(** The real number that a finite binary64 number stands for. *)
Definition value (f : spec_float) : R :=
  match f with
  | S754_finite s m e =>
      (if s then - IZR (Zpos m) else IZR (Zpos m)) * powerRZ 2 e
  | _ => 0
  end.

Definition floor (x : R) : Z := (up x - 1)%Z.

(** The integer nearest to [x], the even one of two that are equally near. *)
Definition nearest_even (x : R) : Z :=
  let f := floor x in
  let r := x - IZR f in
  if Rlt_dec r (1 / 2) then f
  else if Rlt_dec (1 / 2) r then (f + 1)%Z
  else if Z.even f then f else (f + 1)%Z.

(** The exponent [e] with [2^(e-1) <= a < 2^e], searched downwards from [e];
    the search from 1025 ends at 1025 when [a] is beyond the binary64 range,
    and below the exponents of the subnormal numbers when [a] is tiny. *)
Fixpoint magnitude_from (fuel : nat) (e : Z) (a : R) : Z :=
  match fuel with
  | O => e
  | S fuel' =>
      if Rle_dec (powerRZ 2 (e - 1)) a then e
      else magnitude_from fuel' (e - 1)%Z a
  end.

Definition magnitude (a : R) : Z := magnitude_from 2100 1025 a.

(** Rounding of a real number to binary64, to nearest, ties to even. *)
Definition round (x : R) : spec_float :=
  if Req_dec_T x 0 then S754_zero false
  else
    let a := Rabs x in
    let e := fexp PyFloat.prec PyFloat.emax (magnitude a) in
    let m := nearest_even (a * powerRZ 2 (- e)) in
    binary_normalize PyFloat.prec PyFloat.emax
      (if Rlt_dec x 0 then (- m)%Z else m) e false.

(** [np.cos] on one element. *)
Definition cos (b : spec_float) : spec_float :=
  match b with
  | S754_nan | S754_infinity _ => S754_nan
  | _ => round (Rtrigo_def.cos (value b))
  end.

(** Element [i] of [np.linspace(start, stop, num)] for [num >= 2]: numpy
    computes [step = (stop - start) / (num - 1)] once, then [i * step + start]
    for every index (or [(i / (num - 1)) * (stop - start) + start] when the
    step underflows to zero), and stores [stop] itself in the last element. *)
Definition linspace_at (start stop : spec_float) (num i : Z) : spec_float :=
  if ((1 <? num) && (i =? num - 1))%Z then stop
  else
    let d := of_int (num - 1) in
    let delta := sub stop start in
    let step := div delta d in
    let y := if SFeqb step zero then mul (div (of_int i) d) delta
             else mul (of_int i) step in
    add y start.

(** Element [i] of [cosine_spacing(n)]. *)
Definition cosine_spacing_at (n i : Z) : spec_float :=
  let beta := linspace_at zero pi n i in
  mul half (sub one (cos beta)).

(** -1.0 and the binary64 number next to it towards zero, -(1 - 2^-53). *)
Definition minus_one : spec_float := S754_finite true 4503599627370496 (-52).
Definition above_minus_one : spec_float :=
  S754_finite true 9007199254740991 (-53).

End Binary64.

(** ** main

    The computation of [main] between the parsing of the command line and the
    writing of the file. *)
Definition generate_embed_validate (naca_code normal : string)
  (chord : npfloat) (n_per_surface : Z) : result (list point3) :=
  '(x2d, y2d, params) <- generate_naca4 naca_code n_per_surface ;;
  coords3d <- map_to_3d x2d y2d normal chord ;;
  _ <- validate_geometry coords3d ;;
  Ok coords3d.

Definition main_core (naca_code normal : string) (chord : npfloat)
  (points : Z) : result (list point3) :=
  let normal := normalized normal in
  let total_points_requested := Z.max 3 points in
  n_per_surface <- compute_n_per_surface_from_total total_points_requested ;;
  generate_embed_validate naca_code normal chord n_per_surface.

(** ** Specification vocabulary

    The same computations read one point at a time, and the predicates that
    the properties below are stated with. *)

(** The code after [strip()]. *)
Definition stripped (code : string) : list ascii :=
  PyStr.strip (PyStr.chars code).

(** The branch that one abscissa takes. *)
Definition camber_at (m p x : R) : R * R :=
  if Reqb m 0 || Reqb p 0 then (0, 0)
  else if Rltb x (p + 1e-12) then (forward_yc m p x, forward_dyc m p x)
  else (aft_yc m p x, aft_dyc m p x).

Definition yc_at (m p x : R) : R := fst (camber_at m p x).
Definition dyc_at (m p x : R) : R := snd (camber_at m p x).

(** [camber_line] raises only when it has to divide by [(1 - p)^2 = 0]:
    with [p = 1], nonzero camber and an abscissa in the aft segment. *)
Definition aft_division_by_zero (x : list R) (m p : R) : Prop :=
  m <> 0 /\ p = 1 /\ exists xi, In xi x /\ p + 1e-12 <= xi.

(** The angle and the four coordinates at one abscissa. *)
Definition theta_at (m p x : R) : R := atan (dyc_at m p x).
Definition xu_at (m p t x : R) : R := x - thickness_at t x * sin (theta_at m p x).
Definition yu_at (m p t x : R) : R :=
  yc_at m p x + thickness_at t x * cos (theta_at m p x).
Definition xl_at (m p t x : R) : R := x + thickness_at t x * sin (theta_at m p x).
Definition yl_at (m p t x : R) : R :=
  yc_at m p x - thickness_at t x * cos (theta_at m p x).

Definition surfaces_of (m p t : R) (x : list R) : surfaces :=
  {| xu := map (xu_at m p t) x;  yu := map (yu_at m p t) x;
     xl := map (xl_at m p t) x;  yl := map (yl_at m p t) x |}.

(** Every abscissa of the loop of one run is in [0,1]. *)
Definition loop_x_in_unit (code : string) (n : Z) : Prop :=
  forall xs ys prm,
    generate_naca4 code n = Ok (xs, ys, prm) ->
    Forall (fun v => 0 <= v <= 1) xs.

(** The axis that a selector names, and the point of space of a point of the
    loop for a finite chord. *)
Inductive axis : Type := AxisX | AxisY | AxisZ.

Definition axis_of (normal : string) : option axis :=
  if String.eqb (normalized normal) "X" then Some AxisX
  else if String.eqb (normalized normal) "Y" then Some AxisY
  else if String.eqb (normalized normal) "Z" then Some AxisZ
  else None.

Definition embed (a : axis) (c : R) (xy : R * R) : point3R :=
  let '(x, y) := xy in
  match a with
  | AxisX => (0, c * x, c * y)
  | AxisY => (c * x, 0, c * y)
  | AxisZ => (c * x, c * y, 0)
  end.

(** The loop of the returned count has at least [total] points. *)
Definition n_covers_total (total : Z) : Prop :=
  exists n,
    compute_n_per_surface_from_total total = Ok n /\ (total <= 2 * n - 1)%Z.

(** Some coordinate of the point is [inf] or [nan]. *)
Definition has_nonfinite (q : point3) : Prop :=
  fst (fst q) = NonFin \/ snd (fst q) = NonFin \/ snd q = NonFin.

(** What the parser needs of a Unicode database: a decimal digit is a digit,
    and its value is one of 0..9. *)
Definition decimal_is_digit (db : unicode_db) : Prop :=
  forall c d, db_decimal db c = Some d ->
              db_isdigit db c = true /\ (0 <= d <= 9)%Z.

(** The database has the classes of [PyStr] below code point 256. *)
Definition extends_latin1 (db : unicode_db) : Prop :=
  forall c, (c < 256)%N ->
    db_isspace db c = db_isspace latin1 c
    /\ db_isdigit db c = db_isdigit latin1 c
    /\ db_decimal db c = db_decimal latin1 c.

(** The largest finite binary64 number.  The program scales the loop by the
    chord in binary64: a product whose exact value is at most this in
    magnitude is finite there too. *)
Definition binary64_max : R := (2 - / 2 ^ 52) * 2 ^ 1023.

(** The three coordinates of a point are within the binary64 range. *)
Definition in_binary64_range (q : point3R) : Prop :=
  Rabs (fst (fst q)) <= binary64_max
  /\ Rabs (snd (fst q)) <= binary64_max
  /\ Rabs (snd q) <= binary64_max.

(** The values of the sequence in binary64 increase strictly. *)
Definition strictly_increasing64 (n : Z) : Prop :=
  forall i j : Z, (0 <= i < j)%Z -> (j < n)%Z ->
    SFltb (Binary64.cosine_spacing_at n i) (Binary64.cosine_spacing_at n j)
    = true.

(** * Properties *)

Example parse_2412 : parse_naca "2412" = Ok (2 / 100, 4 / 10, 12 / 100).
Proof. reflexivity. Qed.

Example parse_padded : parse_naca "  2412 " = Ok (2 / 100, 4 / 10, 12 / 100).
Proof. reflexivity. Qed.

Example parse_too_short : parse_naca "241" = Err InvalidCodeFormat.
Proof. reflexivity. Qed.

Example parse_not_digits : parse_naca "24a2" = Err InvalidCodeFormat.
Proof. reflexivity. Qed.

(** A superscript two passes [isdigit] and is refused by [int]. *)
Example parse_superscript :
  parse_naca (String "2" (String (ascii_of_N 178) "12")) = Err InvalidLiteral.
Proof. reflexivity. Qed.

Example n_from_total_21 : compute_n_per_surface_from_total 21 = Ok 11%Z.
Proof. vm_compute. reflexivity. Qed.

Example n_from_total_2p53 :
  compute_n_per_surface_from_total 9007199254740992 = Ok 4503599627370496%Z.
Proof. vm_compute. reflexivity. Qed.

(** ** The parser *)

Lemma isdecimal_isdigit (c : ascii) :
  PyStr.isdecimal c = true -> PyStr.isdigit_char c = true.
Proof.
  unfold PyStr.isdigit_char. intros ->. reflexivity.
Qed.

Lemma parse_naca_unfold (code : string) :
  parse_naca code =
  match stripped code with
  | [c0; c1; c2; c3] =>
      if PyStr.isdigit [c0; c1; c2; c3] then
        d0 <- PyStr.int [c0] ;;
        d1 <- PyStr.int [c1] ;;
        d23 <- PyStr.int [c2; c3] ;;
        Ok (IZR d0 / 100, IZR d1 / 10, IZR d23 / 100)
      else Err InvalidCodeFormat
  | _ => Err InvalidCodeFormat
  end.
Proof.
  unfold parse_naca, stripped.
  destruct (PyStr.strip (PyStr.chars code)) as [|c0 [|c1 [|c2 [|c3 [|c4 l]]]]];
    try reflexivity.
  cbn [List.length Nat.eqb negb orb firstn skipn].
  destruct (PyStr.isdigit [c0; c1; c2; c3]); reflexivity.
Qed.

Lemma parse_naca_digits (c0 c1 c2 c3 : ascii) (code : string) :
  stripped code = [c0; c1; c2; c3] ->
  forallb PyStr.isdecimal [c0; c1; c2; c3] = true ->
  parse_naca code =
  Ok (IZR (PyStr.digit_value c0) / 100, IZR (PyStr.digit_value c1) / 10,
      IZR (10 * PyStr.digit_value c2 + PyStr.digit_value c3) / 100).
Proof.
  intros Hs Hd. rewrite parse_naca_unfold, Hs.
  cbn [forallb] in Hd.
  repeat (apply andb_prop in Hd; destruct Hd as [? Hd]).
  unfold PyStr.isdigit, PyStr.int. cbn [forallb].
  rewrite !isdecimal_isdigit by assumption.
  repeat match goal with H : PyStr.isdecimal _ = true |- _ => rewrite H; clear H end.
  cbn [andb bind PyStr.decimal_value].
  repeat f_equal; lia.
Qed.

Lemma parse_naca_ok_inv (code : string) (r : R * R * R) :
  parse_naca code = Ok r ->
  exists c0 c1 c2 c3,
    stripped code = [c0; c1; c2; c3] /\
    forallb PyStr.isdecimal [c0; c1; c2; c3] = true.
Proof.
  rewrite parse_naca_unfold.
  destruct (stripped code) as [|c0 [|c1 [|c2 [|c3 [|c4 l]]]]]; try discriminate.
  destruct (PyStr.isdigit [c0; c1; c2; c3]); try discriminate.
  unfold PyStr.int. cbn [forallb andb].
  destruct (PyStr.isdecimal c0) eqn:E0; cbn [andb bind]; try discriminate.
  destruct (PyStr.isdecimal c1) eqn:E1; cbn [andb bind]; try discriminate.
  destruct (PyStr.isdecimal c2) eqn:E2; cbn [andb bind]; try discriminate.
  destruct (PyStr.isdecimal c3) eqn:E3; cbn [andb bind]; try discriminate.
  intros _. exists c0, c1, c2, c3. split; [reflexivity|].
  cbn [forallb]. rewrite E0, E1, E2, E3. reflexivity.
Qed.

Lemma digit_value_range (c : ascii) :
  PyStr.isdecimal c = true -> (0 <= PyStr.digit_value c <= 9)%Z.
Proof.
  unfold PyStr.isdecimal, PyStr.digit_value. intros H.
  apply andb_prop in H. destruct H as [H1 H2].
  apply N.leb_le in H1. apply N.leb_le in H2. lia.
Qed.

(** What a successful parse returns: the three fractions of the digits. *)
Lemma parse_naca_values (code : string) (m p t : R) :
  parse_naca code = Ok (m, p, t) ->
  exists d0 d1 d23 : Z,
    (0 <= d0 <= 9)%Z /\ (0 <= d1 <= 9)%Z /\ (0 <= d23 <= 99)%Z /\
    m = IZR d0 / 100 /\ p = IZR d1 / 10 /\ t = IZR d23 / 100.
Proof.
  intros H. destruct (parse_naca_ok_inv _ _ H) as (c0 & c1 & c2 & c3 & Hs & Hd).
  rewrite (parse_naca_digits _ _ _ _ _ Hs Hd) in H.
  injection H as <- <- <-.
  cbn [forallb] in Hd.
  repeat (apply andb_prop in Hd; destruct Hd as [? Hd]).
  repeat match goal with
         | H : PyStr.isdecimal _ = true |- _ => apply digit_value_range in H
         end.
  exists (PyStr.digit_value c0), (PyStr.digit_value c1),
    (10 * PyStr.digit_value c2 + PyStr.digit_value c3)%Z.
  repeat split; try reflexivity; lia.
Qed.

(** The parser over all of Unicode. *)

Lemma unicode_parse_naca_unfold (db : unicode_db) (code : list N) :
  parse_naca_u db code =
  match strip_u db code with
  | [c0; c1; c2; c3] =>
      if isdigit_u db [c0; c1; c2; c3] then
        d0 <- int_u db [c0] ;;
        d1 <- int_u db [c1] ;;
        d23 <- int_u db [c2; c3] ;;
        Ok (IZR d0 / 100, IZR d1 / 10, IZR d23 / 100)
      else Err InvalidCodeFormat
  | _ => Err InvalidCodeFormat
  end.
Proof.
  unfold parse_naca_u.
  destruct (strip_u db code) as [|c0 [|c1 [|c2 [|c3 [|c4 l]]]]];
    try reflexivity.
  cbn [List.length Nat.eqb negb orb firstn skipn].
  destruct (isdigit_u db [c0; c1; c2; c3]); reflexivity.
Qed.

Lemma unicode_parse_naca_digits (db : unicode_db) (code : list N)
  (c0 c1 c2 c3 : N) (d0 d1 d2 d3 : Z) :
  decimal_is_digit db ->
  strip_u db code = [c0; c1; c2; c3] ->
  db_decimal db c0 = Some d0 -> db_decimal db c1 = Some d1 ->
  db_decimal db c2 = Some d2 -> db_decimal db c3 = Some d3 ->
  parse_naca_u db code =
  Ok (IZR d0 / 100, IZR d1 / 10, IZR (10 * d2 + d3) / 100).
Proof.
  intros Hdb Hs E0 E1 E2 E3. rewrite unicode_parse_naca_unfold, Hs.
  unfold isdigit_u, int_u. cbn [forallb decimal_value_u].
  rewrite (proj1 (Hdb _ _ E0)), (proj1 (Hdb _ _ E1)),
    (proj1 (Hdb _ _ E2)), (proj1 (Hdb _ _ E3)).
  rewrite E0, E1, E2, E3. cbn [andb bind decimal_value_u].
  repeat f_equal; lia.
Qed.

Lemma isdecimal_char_inv (db : unicode_db) (c : N) :
  isdecimal_char db c = true -> exists d, db_decimal db c = Some d.
Proof.
  unfold isdecimal_char. destruct (db_decimal db c) as [d|];
    [intros _; exists d; reflexivity | discriminate].
Qed.

Lemma latin1_decimal_is_digit : decimal_is_digit latin1.
Proof.
  intros c d. cbn [db_decimal db_isdigit latin1].
  destruct ((48 <=? c) && (c <=? 57))%N eqn:E; [|discriminate].
  intros [= <-]. split; [reflexivity|].
  apply andb_prop in E. destruct E as [E1 E2].
  apply N.leb_le in E1. apply N.leb_le in E2. lia.
Qed.

Lemma latin1_arabic_indic_decimal_is_digit : decimal_is_digit latin1_arabic_indic.
Proof.
  intros c d. cbn [db_decimal db_isdigit latin1_arabic_indic].
  destruct ((1632 <=? c) && (c <=? 1641))%N eqn:E.
  - intros [= <-]. split; [apply orb_true_r|].
    apply andb_prop in E. destruct E as [E1 E2].
    apply N.leb_le in E1. apply N.leb_le in E2. lia.
  - intros H. destruct (latin1_decimal_is_digit c d H) as [H1 H2].
    rewrite H1. split; [reflexivity | exact H2].
Qed.

(** Four Arabic-Indic digits are a code. *)
Example parse_arabic_indic :
  parse_naca_u latin1_arabic_indic [1634; 1636; 1633; 1634]%N =
  Ok (2 / 100, 4 / 10, 12 / 100).
Proof. reflexivity. Qed.

(** On a string of [PyStr] the parser over Unicode is [parse_naca], for
    every database that has the classes of [PyStr] below code point 256. *)

Lemma code_point_bound (c : ascii) : (PyStr.code_point c < 256)%N.
Proof. apply N_ascii_bounded. Qed.

Section Latin1.

Variable db : unicode_db.
Hypothesis Hdb : extends_latin1 db.

Lemma isspace_latin1 (c : ascii) :
  db_isspace db (PyStr.code_point c) = PyStr.isspace c.
Proof. rewrite (proj1 (Hdb _ (code_point_bound c))). reflexivity. Qed.

Lemma isdigit_latin1 (c : ascii) :
  db_isdigit db (PyStr.code_point c) = PyStr.isdigit_char c.
Proof.
  rewrite (proj1 (proj2 (Hdb _ (code_point_bound c)))). reflexivity.
Qed.

Lemma decimal_latin1 (c : ascii) :
  db_decimal db (PyStr.code_point c) =
  if PyStr.isdecimal c then Some (PyStr.digit_value c) else None.
Proof.
  rewrite (proj2 (proj2 (Hdb _ (code_point_bound c)))). reflexivity.
Qed.

Lemma lstrip_latin1 (l : list ascii) :
  lstrip_u db (map PyStr.code_point l) =
  map PyStr.code_point (PyStr.lstrip l).
Proof.
  induction l as [|c l IH]; [reflexivity|].
  cbn [map lstrip_u PyStr.lstrip]. rewrite isspace_latin1.
  destruct (PyStr.isspace c); [exact IH | reflexivity].
Qed.

Lemma strip_latin1 (l : list ascii) :
  strip_u db (map PyStr.code_point l) =
  map PyStr.code_point (PyStr.strip l).
Proof.
  unfold strip_u, PyStr.strip, rstrip_u, PyStr.rstrip.
  rewrite lstrip_latin1, <- map_rev, lstrip_latin1, map_rev. reflexivity.
Qed.

Lemma isdigit_string_latin1 (l : list ascii) :
  isdigit_u db (map PyStr.code_point l) = PyStr.isdigit l.
Proof.
  destruct l as [|c l]; [reflexivity|].
  unfold isdigit_u, PyStr.isdigit. cbn [map].
  change (PyStr.code_point c :: map PyStr.code_point l)
    with (map PyStr.code_point (c :: l)).
  generalize (c :: l). intros k. induction k as [|a k IH]; [reflexivity|].
  cbn [map forallb]. rewrite isdigit_latin1, IH. reflexivity.
Qed.

Lemma decimal_value_latin1 (l : list ascii) (acc : Z) :
  decimal_value_u db acc (map PyStr.code_point l) =
  if forallb PyStr.isdecimal l then Some (PyStr.decimal_value acc l) else None.
Proof.
  revert acc. induction l as [|c l IH]; intros acc; [reflexivity|].
  cbn [map decimal_value_u forallb PyStr.decimal_value].
  rewrite decimal_latin1. destruct (PyStr.isdecimal c); [|reflexivity].
  rewrite IH. reflexivity.
Qed.

Lemma int_latin1 (l : list ascii) :
  int_u db (map PyStr.code_point l) = PyStr.int l.
Proof.
  destruct l as [|c l]; [reflexivity|].
  unfold int_u, PyStr.int.
  change (map PyStr.code_point (c :: l))
    with (PyStr.code_point c :: map PyStr.code_point l).
  change (PyStr.code_point c :: map PyStr.code_point l)
    with (map PyStr.code_point (c :: l)).
  rewrite decimal_value_latin1.
  destruct (forallb PyStr.isdecimal (c :: l)); reflexivity.
Qed.

Lemma parse_naca_latin1 (code : string) :
  parse_naca_u db (code_points code) = parse_naca code.
Proof.
  unfold parse_naca_u, parse_naca, code_points.
  rewrite strip_latin1, length_map, isdigit_string_latin1.
  repeat (rewrite firstn_map || rewrite skipn_map).
  rewrite !int_latin1. reflexivity.
Qed.

End Latin1.

(** C6 (as the code has it).  [parse_naca] first strips white space from
    both ends of its argument.  It succeeds exactly when what remains is four
    characters, all decimal digits (of any script), and then returns digit 1
    over 100, digit 2 over 10 and the number of digits 3 and 4 over 100; it
    fails with [InvalidCodeFormat] whenever what remains is not four
    characters that [isdigit] accepts, and with the [ValueError] of [int]
    when the four characters pass [isdigit] and one of them is not a decimal
    digit.  This holds for every string of code points, whatever the Unicode
    database classifies as white space and as digits, as long as its decimal
    digits are digits. *)
Theorem parse_naca_spec (db : unicode_db) (code : list N) :
  decimal_is_digit db ->
  let s := strip_u db code in
  ((exists r, parse_naca_u db code = Ok r) <->
   (List.length s = 4%nat /\ forallb (isdecimal_char db) s = true))
  /\ (~ (List.length s = 4%nat /\ isdigit_u db s = true) ->
      parse_naca_u db code = Err InvalidCodeFormat)
  /\ (List.length s = 4%nat -> isdigit_u db s = true ->
      forallb (isdecimal_char db) s = false ->
      parse_naca_u db code = Err InvalidLiteral)
  /\ (forall c0 c1 c2 c3 d0 d1 d2 d3,
        s = [c0; c1; c2; c3] ->
        db_decimal db c0 = Some d0 -> db_decimal db c1 = Some d1 ->
        db_decimal db c2 = Some d2 -> db_decimal db c3 = Some d3 ->
        parse_naca_u db code =
        Ok (IZR d0 / 100, IZR d1 / 10, IZR (10 * d2 + d3) / 100)).
Proof.
  intros Hdb s. subst s.
  split; [split|split; [|split]].
  - intros [r H]. rewrite unicode_parse_naca_unfold in H.
    destruct (strip_u db code) as [|c0 [|c1 [|c2 [|c3 [|c4 l]]]]];
      try discriminate.
    split; [reflexivity|].
    destruct (isdigit_u db [c0; c1; c2; c3]); try discriminate.
    unfold int_u, isdecimal_char in *.
    cbn [forallb decimal_value_u] in *.
    destruct (db_decimal db c0); cbn [bind] in H; try discriminate.
    destruct (db_decimal db c1); cbn [bind] in H; try discriminate.
    destruct (db_decimal db c2); cbn [bind] in H; try discriminate.
    destruct (db_decimal db c3); cbn [bind] in H; try discriminate.
    reflexivity.
  - intros [Hl Hd].
    destruct (strip_u db code) as [|c0 [|c1 [|c2 [|c3 [|c4 l]]]]] eqn:Hs;
      try discriminate.
    cbn [forallb] in Hd.
    repeat (apply andb_prop in Hd; destruct Hd as [? Hd]).
    repeat match goal with
           | H : isdecimal_char _ _ = true |- _ =>
               apply isdecimal_char_inv in H; destruct H as [? ?]
           end.
    eexists. eapply unicode_parse_naca_digits; eassumption.
  - intros Hn. rewrite unicode_parse_naca_unfold.
    destruct (strip_u db code) as [|c0 [|c1 [|c2 [|c3 [|c4 l]]]]];
      try reflexivity.
    destruct (isdigit_u db [c0; c1; c2; c3]); [|reflexivity].
    exfalso. apply Hn. split; reflexivity.
  - intros Hl Hd Hnd. rewrite unicode_parse_naca_unfold.
    destruct (strip_u db code) as [|c0 [|c1 [|c2 [|c3 [|c4 l]]]]];
      try discriminate.
    rewrite Hd. unfold int_u, isdecimal_char in *.
    cbn [forallb decimal_value_u] in *.
    destruct (db_decimal db c0); cbn [bind]; [|reflexivity].
    destruct (db_decimal db c1); cbn [bind]; [|reflexivity].
    destruct (db_decimal db c2); cbn [bind]; [|reflexivity].
    destruct (db_decimal db c3); cbn [bind]; [|reflexivity].
    discriminate Hnd.
  - intros c0 c1 c2 c3 d0 d1 d2 d3 Hs E0 E1 E2 E3.
    eapply unicode_parse_naca_digits; eassumption.
Qed.

Lemma parse_naca_spec_witness :
  decimal_is_digit latin1_arabic_indic
  /\ exists r,
       parse_naca_u latin1_arabic_indic [1634; 50; 1633; 50]%N = Ok r.
Proof.
  split; [exact latin1_arabic_indic_decimal_is_digit|].
  apply (parse_naca_spec latin1_arabic_indic [1634; 50; 1633; 50]%N
           latin1_arabic_indic_decimal_is_digit).
  split; reflexivity.
Defined.

(** C6, the claim as stated fails: a code with white space around its four
    digits is parsed although it is five characters long.  The string is one
    of [PyStr], where [parse_naca] is the parser over Unicode. *)
Lemma parse_naca_accepts_padded_code :
  ~ (forall code : string,
       is_ok (parse_naca code) = true <->
       (String.length code = 4%nat /\
        forallb PyStr.isdecimal (PyStr.chars code) = true)).
Proof.
  intros H. destruct (H " 2412"%string) as [H1 _].
  assert (Hok : is_ok (parse_naca " 2412") = true) by reflexivity.
  destruct (H1 Hok) as [Hlen _]. discriminate Hlen.
Qed.

(** ** The number of points per surface *)

Local Open Scope Z_scope.

Lemma digits2_pos_size (p : positive) : digits2_pos p = Pos.size p.
Proof. induction p as [p IH|p IH|]; cbn; congruence. Qed.

Lemma Zdigits2_log2 (a : Z) : 0 < a -> Zdigits2 a = Z.log2 a + 1.
Proof.
  destruct a as [|p|p]; try lia. intros _.
  unfold Zdigits2. rewrite digits2_pos_size.
  destruct p as [p|p|]; cbn [Z.log2 Pos.size]; lia.
Qed.

Lemma shr_1_even (q : positive) :
  shr_1 {| shr_m := Zpos q~0; shr_r := false; shr_s := false |} =
  {| shr_m := Zpos q; shr_r := false; shr_s := false |}.
Proof. reflexivity. Qed.

Lemma int_truediv_by_2_exact (a : Z) :
  4 <= a < 2 ^ 53 ->
  let d := Z.log2 a + 1 in
  PyFloat.int_truediv a 2 =
  Ok (S754_finite false (Z.to_pos (a * 2 ^ (53 - d))) (d - 54)).
Proof.
  intros Ha d.
  assert (Hd : 3 <= d <= 53).
  { unfold d. split.
    - assert (2 <= Z.log2 a); [|lia]. apply Z.log2_le_pow2; lia.
    - assert (Z.log2 a < 53); [|lia]. apply Z.log2_lt_pow2; lia. }
  assert (Hda : Zdigits2 a = d) by (apply Zdigits2_log2; lia).
  assert (Hlog : Z.log2 a = d - 1) by (unfold d; lia).
  clearbody d.
  unfold PyFloat.int_truediv.
  destruct a as [|pa|pa] eqn:Ea; try lia. rewrite <- Ea in *.
  replace (a <? 0) with false by (symmetry; apply Z.ltb_ge; lia).
  cbn [Z.ltb Z.compare xorb].
  rewrite (Z.abs_eq a) by lia. change (Z.abs 2) with 2.
  unfold SFdiv_core_binary.
  rewrite Hda.
  change (Zdigits2 2) with 2.
  unfold fexp, emin, PyFloat.prec, PyFloat.emax.
  change IntDef.Z.min with Z.min. change IntDef.Z.max with Z.max.
  replace (Z.min (Z.max (d + 0 - (2 + 0) - 53) (3 - 1024 - 53)) (0 - 0)) with (d - 55) by lia.
  replace (0 - 0 - (d - 55)) with (55 - d) by lia.
  change IntDef.Z.shiftl with Z.shiftl. change IntDef.Z.div_eucl with Z.div_eucl.
  set (q' := a * 2 ^ (53 - d)).
  assert (Hq' : 0 < q').
  { unfold q'. apply Z.mul_pos_pos; [lia|]. apply Z.pow_pos_nonneg; lia. }
  assert (Hm : match 55 - d with
               | 0 => a
               | Z.pos _ => Z.shiftl a (55 - d)
               | Z.neg _ => 0
               end = 2 * (2 * q')).
  { destruct (55 - d) as [|s|s] eqn:Es; try lia. rewrite <- Es.
    rewrite Z.shiftl_mul_pow2 by lia.
    unfold q'. replace (55 - d) with (1 + (1 + (53 - d))) by lia.
    rewrite !Z.pow_add_r by lia. change (2 ^ 1) with 2. ring. }
  rewrite Hm.
  pose proof (Z_div_mod (2 * (2 * q')) 2 ltac:(lia)) as Hdm.
  destruct (Z.div_eucl (2 * (2 * q')) 2) as [q r].
  assert (q = 2 * q' /\ r = 0) as [-> ->] by lia.
  change (new_location 2 0) with loc_Exact.
  unfold binary_round_aux.
  assert (Hdq : Zdigits2 (2 * q') = 54).
  { rewrite Zdigits2_log2 by lia. unfold q'.
    replace (2 * (a * 2 ^ (53 - d))) with (a * 2 ^ (54 - d)).
    - rewrite Z.log2_mul_pow2 by lia. lia.
    - replace (54 - d) with (1 + (53 - d)) by lia.
      rewrite Z.pow_add_r by lia. change (2 ^ 1) with 2. ring. }
  assert (Hdq' : Zdigits2 q' = 53).
  { rewrite Zdigits2_log2 by lia. unfold q'.
    rewrite Z.log2_mul_pow2 by lia. lia. }
  unfold shr_fexp at 1. rewrite Hdq. unfold fexp, emin.
  change IntDef.Z.min with Z.min. change IntDef.Z.max with Z.max.
  replace (Z.max (54 + (d - 55) - 53) (3 - 1024 - 53) - (d - 55)) with 1 by lia.
  destruct q' as [|pq|pq] eqn:Eq; try lia.
  cbn [shr_record_of_loc shr iter_pos Z.mul Pos.mul shr_1 shr_m loc_of_shr_record orb round_nearest_even].
  unfold shr_fexp. rewrite Hdq'. unfold fexp, emin.
  change IntDef.Z.min with Z.min. change IntDef.Z.max with Z.max.
  replace (Z.max (53 + (d - 55 + 1) - 53) (3 - 1024 - 53) - (d - 55 + 1)) with 0 by lia.
  cbn [shr_record_of_loc shr shr_m].
  replace (d - 55 + 1 <=? 1024 - 53) with true by (symmetry; apply Z.leb_le; lia).
  cbn [Z.to_pos]. replace (d - 55 + 1) with (d - 54) by lia. reflexivity.
Qed.

Lemma ceil_half (a : Z) :
  4 <= a < 2 ^ 53 ->
  let d := Z.log2 a + 1 in
  PyFloat.ceil (S754_finite false (Z.to_pos (a * 2 ^ (53 - d))) (d - 54)) =
  Ok ((a + 1) / 2).
Proof.
  intros Ha d.
  assert (Hd : 3 <= d <= 53).
  { unfold d. split.
    - assert (2 <= Z.log2 a); [|lia]. apply Z.log2_le_pow2; lia.
    - assert (Z.log2 a < 53); [|lia]. apply Z.log2_lt_pow2; lia. }
  clearbody d. unfold PyFloat.ceil.
  replace (0 <=? d - 54) with false by (symmetry; apply Z.leb_gt; lia).
  set (k := 2 ^ (53 - d)).
  assert (Hk : 0 < k) by (apply Z.pow_pos_nonneg; lia).
  rewrite Z2Pos.id by (apply Z.mul_pos_pos; lia).
  replace (2 ^ (- (d - 54))) with (2 * k).
  - f_equal. replace (- (a * k)) with ((- a) * k) by ring.
    rewrite Z.div_mul_cancel_r by lia.
    pose proof (Z.div_mod (- a) 2 ltac:(lia)).
    pose proof (Z.mod_pos_bound (- a) 2 ltac:(lia)).
    pose proof (Z.div_mod (a + 1) 2 ltac:(lia)).
    pose proof (Z.mod_pos_bound (a + 1) 2 ltac:(lia)).
    lia.
  - unfold k. replace (- (d - 54)) with (1 + (53 - d)) by lia.
    rewrite Z.pow_add_r by lia. reflexivity.
Qed.

(** Below 2^53 the float quotient is exact and the function returns
    [max(3, ceil((total + 1) / 2))]. *)
Lemma compute_n_exact (total : Z) :
  3 <= total < 2 ^ 53 ->
  compute_n_per_surface_from_total total = Ok (Z.max 3 ((total + 2) / 2)).
Proof.
  intros Ht.
  destruct (Z.eq_dec total (2 ^ 53 - 1)) as [->|Hne].
  { vm_compute. reflexivity. }
  unfold compute_n_per_surface_from_total.
  rewrite int_truediv_by_2_exact by lia. cbn [bind].
  rewrite ceil_half by lia. cbn [bind].
  replace (total + 1 + 1) with (total + 2) by ring. reflexivity.
Qed.

(** The property of C3 holds for every total below 2^53. *)
Lemma compute_n_left_inverse (total : Z) :
  3 <= total < 2 ^ 53 ->
  exists n,
    compute_n_per_surface_from_total total = Ok n
    /\ 3 <= n /\ total <= 2 * n - 1
    /\ forall n', 3 <= n' -> total <= 2 * n' - 1 -> n <= n'.
Proof.
  intros Ht. exists (Z.max 3 ((total + 2) / 2)).
  split; [apply compute_n_exact; exact Ht|].
  pose proof (Z.div_mod (total + 2) 2 ltac:(lia)).
  pose proof (Z.mod_pos_bound (total + 2) 2 ltac:(lia)).
  split; [lia|]. split; [lia|]. intros n' H3 Hn'. lia.
Qed.

(** C3 fails at 2^53.  [(2^53 + 1) / 2] is not a binary64 value and is
    rounded to 2^52, so the function returns [n = 2^52], for which
    [2 * n - 1 = 2^53 - 1] is less than the total asked for. *)
Theorem compute_n_too_small_at_2p53 :
  compute_n_per_surface_from_total 9007199254740992 = Ok 4503599627370496
  /\ 2 * 4503599627370496 - 1 < 9007199254740992
  /\ ~ n_covers_total 9007199254740992.
Proof.
  assert (H : compute_n_per_surface_from_total 9007199254740992 =
              Ok 4503599627370496) by (vm_compute; reflexivity).
  split; [exact H|]. split; [lia|].
  intros (n & Hn & Hle). rewrite H in Hn. injection Hn as <-. lia.
Qed.

Local Open Scope R_scope.

(** ** The parameter sequence *)

Lemma nth_map_seq {A : Type} (f : nat -> A) (n i : nat) (d : A) :
  (i < n)%nat -> nth i (map f (seq 0 n)) d = f i.
Proof.
  intros H.
  rewrite (nth_indep _ d (f 0%nat)) by (rewrite length_map, length_seq; exact H).
  rewrite map_nth, seq_nth by exact H. reflexivity.
Qed.

Lemma cosine_spacing_length (n : nat) : List.length (cosine_spacing n) = n.
Proof.
  unfold cosine_spacing, linspace. rewrite !length_map, length_seq. reflexivity.
Qed.

Lemma cosine_spacing_nth (n i : nat) :
  (i < n)%nat ->
  nth i (cosine_spacing n) 0 = 0.5 * (1 - cos (INR i * (PI / INR (n - 1)))).
Proof.
  intros H. unfold cosine_spacing, linspace. rewrite map_map.
  rewrite nth_map_seq by exact H.
  replace (0 + INR i * ((PI - 0) / INR (n - 1))) with (INR i * (PI / INR (n - 1)))
    by (unfold Rdiv; ring).
  reflexivity.
Qed.

Lemma step_pos (n : nat) : (2 <= n)%nat -> 0 < PI / INR (n - 1).
Proof.
  intros H. apply Rdiv_lt_0_compat; [exact PI_RGT_0|].
  apply lt_0_INR. lia.
Qed.

Lemma last_angle (n : nat) : (2 <= n)%nat -> INR (n - 1) * (PI / INR (n - 1)) = PI.
Proof.
  intros H. field. apply not_0_INR. lia.
Qed.

Lemma angle_range (n i : nat) :
  (2 <= n)%nat -> (i < n)%nat -> 0 <= INR i * (PI / INR (n - 1)) <= PI.
Proof.
  intros Hn Hi. pose proof (step_pos n Hn) as Hs.
  split.
  - apply Rmult_le_pos; [apply pos_INR | lra].
  - rewrite <- (last_angle n Hn) at 2.
    apply Rmult_le_compat_r; [lra|]. apply le_INR. lia.
Qed.

(** Every parameter value lies in the unit interval. *)
Lemma cosine_spacing_unit (n : nat) :
  Forall (fun x => 0 <= x <= 1) (cosine_spacing n).
Proof.
  unfold cosine_spacing. apply Forall_map, Forall_forall. intros b _.
  pose proof (COS_bound b). lra.
Qed.

(** *** The last values in binary64 *)

Lemma PI_upper : PI <= 3.141592654.
Proof.
  destruct (PI_2_3_7_ineq 4) as [_ H].
  unfold sum_f_R0, tg_alt, PI_2_3_7_tg, Ratan_seq in H; simpl in H. lra.
Qed.

Lemma PI_lower : 3.141592653 <= PI.
Proof.
  destruct (PI_2_3_7_ineq 4) as [H _].
  unfold sum_f_R0, tg_alt, PI_2_3_7_tg, Ratan_seq in H; simpl in H. lra.
Qed.

Lemma sin_sqr_le (y : R) : Rabs y <= 1 -> (sin y)² <= y².
Proof.
  intros Hy.
  assert (Hpos : forall u, 0 <= u <= 1 -> 0 <= sin u <= u).
  { intros u [H0 H1]. split.
    - apply sin_ge_0; [exact H0|]. pose proof PI_lower. lra.
    - destruct (Req_dec u 0) as [->|Hn].
      + rewrite sin_0. lra.
      + left. apply sin_lt_x. lra. }
  unfold Rabs in Hy. destruct (Rcase_abs y) as [Hneg|Hge].
  - destruct (Hpos (- y)) as [H0 H1]; [lra|].
    rewrite sin_neg in H0, H1. unfold Rsqr. nra.
  - destruct (Hpos y) as [H0 H1]; [lra|]. unfold Rsqr. nra.
Qed.

(** Within 2^-26 of [PI] the cosine is within 2^-53 of -1. *)
Lemma cos_near_PI (b : R) :
  Rabs (PI - b) <= / 2 ^ 26 -> -1 <= cos b <= -1 + / 2 ^ 53.
Proof.
  intros Hb. split; [apply COS_bound|].
  replace b with (PI - (PI - b)) by ring.
  rewrite Rtrigo_facts.cos_pi_minus.
  set (d := PI - b) in *.
  replace d with (2 * (d / 2)) by field.
  rewrite cos_2a_sin.
  assert (Hd : Rabs (d / 2) <= 1).
  { unfold Rdiv. rewrite Rabs_mult, (Rabs_right (/ 2)) by lra.
    assert (/ 2 ^ 26 <= 1) by lra. lra. }
  pose proof (sin_sqr_le _ Hd) as Hs. unfold Rsqr in Hs.
  assert (Hq : d * d <= / 2 ^ 26 * / 2 ^ 26).
  { pose proof (Rle_abs d) as H1. pose proof (Rle_abs (- d)) as H2.
    rewrite Rabs_Ropp in H2.
    assert (He : 0 < / 2 ^ 26) by lra.
    set (e := / 2 ^ 26) in *. clearbody e. nra. }
  assert (Hh : d / 2 * (d / 2) = d * d / 4) by field.
  lra.
Qed.

Lemma pow2_le (u v : Z) : (u <= v)%Z -> powerRZ 2 u <= powerRZ 2 v.
Proof.
  intros Huv. replace v with (u + (v - u))%Z by lia.
  rewrite powerRZ_add by lra.
  assert (H1 : 1 <= powerRZ 2 (v - u)).
  { rewrite <- (Z2Nat.id (v - u)) by lia. rewrite <- pow_powerRZ.
    apply pow_R1_Rle. lra. }
  pose proof (powerRZ_lt 2 u ltac:(lra)). nra.
Qed.

Lemma powerRZ_2_nat (n : nat) : powerRZ 2 (Z.of_nat n) = IZR (2 ^ Z.of_nat n).
Proof. rewrite <- pow_powerRZ. apply pow_IZR. Qed.

(** The search finds the exponent of the binade of [a]. *)
Lemma magnitude_from_spec (fuel : nat) (e k : Z) (a : R) :
  powerRZ 2 (k - 1) <= a < powerRZ 2 k ->
  (k <= e)%Z -> (e - k < Z.of_nat fuel)%Z ->
  Binary64.magnitude_from fuel e a = k.
Proof.
  intros [Hlo Hhi]. revert e. induction fuel as [|fuel IH]; intros e Hke Hf.
  - lia.
  - cbn [Binary64.magnitude_from].
    destruct (Rle_dec (powerRZ 2 (e - 1)) a) as [Hle|Hnle].
    + destruct (Z.eq_dec e k) as [|Hne]; [assumption|].
      pose proof (pow2_le k (e - 1) ltac:(lia)). lra.
    + apply IH; [|lia].
      destruct (Z.eq_dec e k) as [->|Hne]; [contradiction|lia].
Qed.

Lemma floor_between (x : R) (k : Z) :
  IZR k <= x < IZR k + 1 -> Binary64.floor x = k.
Proof.
  intros [H1 H2]. unfold Binary64.floor.
  rewrite <- (tech_up x (k + 1)); [lia| |]; rewrite plus_IZR; lra.
Qed.

Lemma nearest_even_IZR (k : Z) : Binary64.nearest_even (IZR k) = k.
Proof.
  unfold Binary64.nearest_even.
  rewrite (floor_between (IZR k) k) by lra.
  destruct (Rlt_dec (IZR k - IZR k) (1 / 2)) as [|Hn]; [reflexivity|].
  exfalso. apply Hn. lra.
Qed.

Lemma nearest_even_between (x : R) (k : Z) :
  IZR k <= x < IZR k + 1 ->
  Binary64.nearest_even x = k \/ Binary64.nearest_even x = (k + 1)%Z.
Proof.
  intros H. unfold Binary64.nearest_even. rewrite (floor_between x k H).
  destruct (Rlt_dec (x - IZR k) (1 / 2)); [left; reflexivity|].
  destruct (Rlt_dec (1 / 2) (x - IZR k)); [right; reflexivity|].
  destruct (Z.even k); [left|right]; reflexivity.
Qed.

(** A real number from -1 to -1 + 2^-53 rounds to -1.0 or to its
    neighbour. *)
Lemma round_near_minus_one (x : R) :
  -1 <= x <= -1 + / 2 ^ 53 ->
  Binary64.round x = Binary64.minus_one
  \/ Binary64.round x = Binary64.above_minus_one.
Proof.
  intros [Hlo Hhi].
  assert (Hp : / 2 ^ 53 <= / 2) by lra.
  unfold Binary64.round.
  destruct (Req_dec_T x 0) as [H0|_]; [lra|].
  destruct (Rlt_dec x 0) as [_|Hn]; [|lra].
  rewrite (Rabs_left x) by lra.
  destruct (Req_dec x (-1)) as [->|Hne].
  - replace (- -1) with 1 by ring.
    assert (Hm : Binary64.magnitude 1 = 1%Z).
    { apply magnitude_from_spec; [|lia|cbn; lia].
      cbn [Z.sub Z.add Z.opp Z.pos_sub powerRZ]. simpl. lra. }
    rewrite Hm.
    change (fexp PyFloat.prec PyFloat.emax 1) with (-52)%Z.
    change (- -52)%Z with 52%Z.
    rewrite Rmult_1_l.
    change (powerRZ 2 52) with (powerRZ 2 (Z.of_nat 52)).
    rewrite (powerRZ_2_nat 52).
    rewrite nearest_even_IZR. left. vm_compute. reflexivity.
  - assert (Hm : Binary64.magnitude (- x) = 0%Z).
    { apply magnitude_from_spec; [|lia|cbn; lia].
      cbn [Z.sub Z.add Z.opp Z.pos_sub powerRZ]. simpl. lra. }
    rewrite Hm.
    change (fexp PyFloat.prec PyFloat.emax 0) with (-53)%Z.
    change (- -53)%Z with 53%Z.
    change (powerRZ 2 53) with (powerRZ 2 (Z.of_nat 53)).
    rewrite (powerRZ_2_nat 53).
    change (Z.of_nat 53) with 53%Z.
    destruct (nearest_even_between (- x * IZR (2 ^ 53)) (2 ^ 53 - 1)) as [E|E].
    + rewrite minus_IZR.
      assert (Hz : IZR (2 ^ 53) = 2 ^ 53).
      { rewrite pow_IZR. reflexivity. }
      rewrite Hz.
      assert (Hq : / 2 ^ 53 * 2 ^ 53 = 1) by (field; apply pow_nonzero; lra).
      assert (0 < 2 ^ 53) by (apply pow_lt; lra).
      set (w := 2 ^ 53) in *. clearbody w. nra.
    + rewrite E. right. vm_compute. reflexivity.
    + rewrite E. left. vm_compute. reflexivity.
Qed.

Lemma cos64_near_pi (b : spec_float) :
  match b with S754_finite _ _ _ => True | _ => False end ->
  Rabs (PI - Binary64.value b) <= / 2 ^ 26 ->
  Binary64.cos b = Binary64.minus_one
  \/ Binary64.cos b = Binary64.above_minus_one.
Proof.
  intros Hf Hb. destruct b; try contradiction.
  apply round_near_minus_one, cos_near_PI, Hb.
Qed.

(** Both candidates for the cosine give the value 1.0: [1 - c] is 2.0 for
    [c = -1.0], and for its neighbour it is the tie [2 - 2^-53], which rounds
    to the even 2.0.  So the value is 1.0 for every [np.cos] that returns one
    of the two binary64 numbers that enclose the exact cosine. *)
Lemma spacing_of_cos_near_minus_one (c : spec_float) :
  c = Binary64.minus_one \/ c = Binary64.above_minus_one ->
  Binary64.mul Binary64.half (Binary64.sub Binary64.one c) = Binary64.one.
Proof. intros [-> | ->]; vm_compute; reflexivity. Qed.

(** The last angle but one for 250000000 points. *)
Lemma beta_before_last :
  Binary64.linspace_at Binary64.zero Binary64.pi 250000000 249999998 =
  S754_finite false 7074237723731489 (-51).
Proof. vm_compute. reflexivity. Qed.

Lemma value_51 (m : positive) :
  Binary64.value (S754_finite false m (-51)) = IZR (Zpos m) / 2 ^ 51.
Proof.
  unfold Binary64.value.
  change (-51)%Z with (- Z.of_nat 51)%Z.
  rewrite powerRZ_neg', <- pow_powerRZ. reflexivity.
Qed.

(** The last value is 1.0 for every number of points: the last angle is
    [math.pi] itself, whose cosine rounds to -1.0. *)
Lemma cosine_spacing64_last (n : Z) :
  (1 < n)%Z -> Binary64.cosine_spacing_at n (n - 1) = Binary64.one.
Proof.
  intros Hn. pose proof PI_lower as Hl. pose proof PI_upper as Hu.
  unfold Binary64.cosine_spacing_at, Binary64.linspace_at. cbv zeta.
  replace (1 <? n)%Z with true by (symmetry; apply Z.ltb_lt; exact Hn).
  rewrite Z.eqb_refl. cbn [andb].
  apply spacing_of_cos_near_minus_one, cos64_near_pi; [exact I|].
  unfold Binary64.pi. rewrite value_51. unfold Rabs.
  destruct (Rcase_abs _); lra.
Qed.

(** With 250000000 points the last angle but one is within 1.26e-8 of [PI];
    its cosine is nearer to -1 than the binary64 numbers can tell, and the
    value before the last is 1.0 as well. *)
Lemma cosine_spacing64_before_last :
  Binary64.cosine_spacing_at 250000000 249999998 = Binary64.one.
Proof.
  pose proof PI_lower as Hl. pose proof PI_upper as Hu.
  unfold Binary64.cosine_spacing_at. cbv zeta. rewrite beta_before_last.
  apply spacing_of_cos_near_minus_one, cos64_near_pi; [exact I|].
  rewrite value_51. unfold Rabs. destruct (Rcase_abs _); lra.
Qed.

(** C7 (as the code has it).  For [n >= 3], [cosine_spacing n] has [n] values
    [0.5 * (1 - cos (i * step))], where the angles [i * step] go from 0 to
    [PI] in [n - 1] equal steps; the first value is 0 and the last is 1, and
    as real numbers the values increase strictly.  Of the binary64 values
    that the program computes, the last is 1.0 for every [n], and the
    increase is not strict for every [n]: with 250000000 points the value
    before the last is 1.0 as well. *)
Theorem cosine_spacing_spec (n : nat) :
  (3 <= n)%nat ->
  List.length (cosine_spacing n) = n
  /\ (forall i, (i < n)%nat ->
        nth i (cosine_spacing n) 0 =
        0.5 * (1 - cos (INR i * (PI / INR (n - 1)))))
  /\ INR 0 * (PI / INR (n - 1)) = 0
  /\ INR (n - 1) * (PI / INR (n - 1)) = PI
  /\ (forall i j, (i < j < n)%nat ->
        nth i (cosine_spacing n) 0 < nth j (cosine_spacing n) 0)
  /\ nth 0 (cosine_spacing n) 0 = 0
  /\ nth (n - 1) (cosine_spacing n) 0 = 1
  /\ Binary64.cosine_spacing_at (Z.of_nat n) (Z.of_nat n - 1) = Binary64.one
  /\ Binary64.cosine_spacing_at 250000000 249999998 = Binary64.one.
Proof.
  intros Hn. assert (H2 : (2 <= n)%nat) by lia.
  split; [apply cosine_spacing_length|].
  split; [intros i Hi; apply cosine_spacing_nth; exact Hi|].
  split; [simpl; ring|].
  split; [apply last_angle; exact H2|].
  split; [|split; [|split; [|split]]].
  - intros i j [Hij Hj].
    rewrite !cosine_spacing_nth by lia.
    assert (Hlt : INR i * (PI / INR (n - 1)) < INR j * (PI / INR (n - 1))).
    { apply Rmult_lt_compat_r; [apply step_pos; exact H2 | apply lt_INR; exact Hij]. }
    destruct (angle_range n i H2 ltac:(lia)) as [Hi0 Hi1].
    destruct (angle_range n j H2 Hj) as [Hj0 Hj1].
    pose proof (cos_decreasing_1 _ _ Hi0 Hi1 Hj0 Hj1 Hlt). lra.
  - rewrite cosine_spacing_nth by lia. simpl INR. rewrite Rmult_0_l, cos_0. lra.
  - rewrite cosine_spacing_nth by lia. rewrite last_angle by exact H2.
    rewrite cos_PI. lra.
  - apply cosine_spacing64_last. lia.
  - exact cosine_spacing64_before_last.
Qed.

Lemma cosine_spacing_spec_witness :
  (3 <= 3)%nat /\ nth 0 (cosine_spacing 3) 0 < nth 1 (cosine_spacing 3) 0.
Proof.
  split; [lia|].
  apply (cosine_spacing_spec 3 ltac:(lia)). lia.
Defined.

(** C7, the claim as stated fails for the values that the program computes:
    with 250000000 points the sequence in binary64 is not strictly
    increasing, its last two values being equal. *)
Lemma cosine_spacing64_not_increasing : ~ strictly_increasing64 250000000.
Proof.
  intros H.
  specialize (H 249999998 249999999 ltac:(lia) ltac:(lia))%Z.
  rewrite cosine_spacing64_before_last in H.
  change 249999999%Z with (250000000 - 1)%Z in H.
  rewrite (cosine_spacing64_last 250000000 ltac:(lia)) in H.
  vm_compute in H. discriminate H.
Qed.

(** ** The camber line, point by point *)

Lemma map2_map {A B C D : Type} (f : B -> C -> D) (g : A -> B) (h : A -> C)
  (x : list A) :
  map2 f (map g x) (map h x) = map (fun a => f (g a) (h a)) x.
Proof.
  induction x as [|a x IH]; [reflexivity|]. simpl. rewrite IH. reflexivity.
Qed.

Lemma map2_map_r {A C D : Type} (f : A -> C -> D) (h : A -> C) (x : list A) :
  map2 f x (map h x) = map (fun a => f a (h a)) x.
Proof.
  rewrite <- (map_id x) at 1. apply map2_map.
Qed.

Lemma assign_where_map {A : Type} (g : A -> bool) (f h : A -> R) (x : list A) :
  assign_where (map g x) (map f x) (map h x) =
  map (fun a => if g a then f a else h a) x.
Proof.
  unfold assign_where.
  induction x as [|a x IH]; [reflexivity|]. simpl. rewrite IH. reflexivity.
Qed.

Lemma any_map_false {A : Type} (g : A -> bool) (f h : A -> R) (x : list A) :
  any (map g x) = false ->
  map h x = map (fun a => if g a then f a else h a) x.
Proof.
  unfold any. induction x as [|a x IH]; [reflexivity|]. simpl.
  intros H. apply orb_false_elim in H. destruct H as [Ha Hx].
  rewrite Ha, <- IH by exact Hx. reflexivity.
Qed.

Lemma any_map_true {A : Type} (g : A -> bool) (x : list A) :
  any (map g x) = true -> exists a, In a x /\ g a = true.
Proof.
  unfold any. intros H. apply existsb_exists in H. destruct H as (b & Hb & ->).
  apply in_map_iff in Hb. destruct Hb as (a & Ha & Hin). exists a. split; assumption.
Qed.

Lemma Reqb_true (a b : R) : Reqb a b = true <-> a = b.
Proof.
  unfold Reqb. destruct (Req_dec_T a b); split; intros; congruence.
Qed.

Lemma Reqb_false (a b : R) : Reqb a b = false <-> a <> b.
Proof.
  unfold Reqb. destruct (Req_dec_T a b); split; intros; congruence.
Qed.

Lemma Rltb_true (a b : R) : Rltb a b = true <-> a < b.
Proof.
  unfold Rltb. destruct (Rlt_dec a b); split; intros; congruence.
Qed.

Lemma Rltb_false (a b : R) : Rltb a b = false <-> b <= a.
Proof.
  unfold Rltb. destruct (Rlt_dec a b); split; intros; try congruence; lra.
Qed.

(** Settles one comparison of the goal from the hypotheses. *)
Ltac decide_test :=
  match goal with
  | |- context [Reqb ?a ?b] =>
      first [ replace (Reqb a b) with true
                by (symmetry; apply Reqb_true; first [assumption | lra])
            | replace (Reqb a b) with false
                by (symmetry; apply Reqb_false; first [assumption | lra]) ]
  | |- context [Rltb ?a ?b] =>
      first [ replace (Rltb a b) with true
                by (symmetry; apply Rltb_true; first [assumption | lra])
            | replace (Rltb a b) with false
                by (symmetry; apply Rltb_false; first [assumption | lra]) ]
  end.

Lemma camber_line_pointwise (x : list R) (m p : R) :
  ~ aft_division_by_zero x m p ->
  camber_line x m p = Ok (map (yc_at m p) x, map (dyc_at m p) x).
Proof.
  intros Hsafe. unfold camber_line, yc_at, dyc_at, camber_at.
  destruct (Reqb m 0 || Reqb p 0) eqn:Hsym.
  { reflexivity. }
  apply orb_false_elim in Hsym. destruct Hsym as [Hm Hp].
  apply Reqb_false in Hm. apply Reqb_false in Hp.
  assert (Hp2 : divisor (p ^ 2) = Ok (p ^ 2)).
  { unfold divisor. replace (Reqb (p ^ 2) 0) with false; [reflexivity|].
    symmetry. apply Reqb_false. apply pow_nonzero. exact Hp. }
  rewrite Hp2. cbn [bind].
  set (g := fun xi : R => Rltb xi (p + 1e-12)).
  rewrite map_map. fold g.
  unfold zeros_like.
  set (z := fun _ : R => 0).
  assert (H1 : (if any (map g x)
                then Ok (assign_where (map g x) (map (forward_yc m p) x) (map z x),
                         assign_where (map g x) (map (forward_dyc m p) x) (map z x))
                else Ok (map z x, map z x)) =
               Ok (map (fun a => if g a then forward_yc m p a else z a) x,
                   map (fun a => if g a then forward_dyc m p a else z a) x)).
  { destruct (any (map g x)) eqn:Hany.
    - rewrite !assign_where_map. reflexivity.
    - rewrite <- !(any_map_false g _ z x Hany). reflexivity. }
  rewrite H1. cbn [bind]. clear H1.
  set (h1 := fun a => if g a then forward_yc m p a else z a).
  set (h2 := fun a => if g a then forward_dyc m p a else z a).
  set (ng := fun a => negb (g a)).
  destruct (any (map ng x)) eqn:Hany.
  - assert (Hq : divisor ((1 - p) ^ 2) = Ok ((1 - p) ^ 2)).
    { unfold divisor. replace (Reqb ((1 - p) ^ 2) 0) with false; [reflexivity|].
      symmetry. apply Reqb_false. apply pow_nonzero. intros H1p.
      apply Hsafe. split; [exact Hm|]. split; [lra|].
      apply any_map_true in Hany. destruct Hany as (a & Hin & Ha).
      exists a. split; [exact Hin|]. unfold ng, g in Ha.
      apply negb_true_iff in Ha. apply Rltb_false in Ha. exact Ha. }
    rewrite Hq. cbn [bind]. rewrite !assign_where_map.
    f_equal. f_equal; apply map_ext; intros a; unfold ng, h1, h2, g, z;
      destruct (Rltb a (p + 1e-12)); reflexivity.
  - cbn [bind].
    rewrite (any_map_false ng (aft_yc m p) h1 x Hany).
    rewrite (any_map_false ng (aft_dyc m p) h2 x Hany).
    f_equal. f_equal; apply map_ext; intros a; unfold ng, h1, h2, g, z;
      destruct (Rltb a (p + 1e-12)); reflexivity.
Qed.

(** ** The two surfaces and the loop *)

Lemma surface_points_pointwise (m p t : R) (n : nat) :
  ~ aft_division_by_zero (cosine_spacing n) m p ->
  surface_points m p t n = Ok (surfaces_of m p t (cosine_spacing n)).
Proof.
  intros Hsafe. unfold surface_points.
  rewrite (camber_line_pointwise _ _ _ Hsafe). cbn [bind].
  unfold thickness_distribution, surfaces_of.
  rewrite !map_map, !map2_map, !map2_map_r. reflexivity.
Qed.

Lemma parse_naca_safe (code : string) (m p t : R) (x : list R) :
  parse_naca code = Ok (m, p, t) -> ~ aft_division_by_zero x m p.
Proof.
  intros H (_ & Hp & _).
  destruct (parse_naca_values _ _ _ _ H) as (d0 & d1 & d23 & _ & Hd1 & _ & _ & Hpv & _).
  assert (IZR d1 <= 9) by (apply IZR_le; lia). lra.
Qed.

Lemma effective_n_ge3 (n : Z) : (3 <= effective_n n)%nat.
Proof. unfold effective_n. lia. Qed.

Lemma generate_naca4_pointwise (code : string) (n : Z) (m p t : R) :
  parse_naca code = Ok (m, p, t) ->
  generate_naca4 code n =
  let s := surfaces_of m p t (cosine_spacing (effective_n n)) in
  Ok (rev (xu s) ++ skipn 1 (xl s), rev (yu s) ++ skipn 1 (yl s), (m, p, t)).
Proof.
  intros H. unfold generate_naca4. rewrite H. cbn [bind].
  rewrite (surface_points_pointwise _ _ _ _ (parse_naca_safe _ _ _ _ _ H)).
  cbn [bind]. unfold assemble_loop, surfaces_of. cbn [xu yu xl yl].
  rewrite length_map, cosine_spacing_length.
  pose proof (effective_n_ge3 n) as Hn.
  replace (1 <? effective_n n)%nat with true
    by (symmetry; apply Nat.ltb_lt; lia).
  reflexivity.
Qed.

(** C8.  For a code that parses and any requested count [n], with
    [N = max(3, n)] the effective count: the two surfaces have [N] points
    each, the loop is the upper surface reversed followed by the lower surface
    without its first point, it has [2 * N - 1] points, and that is at
    least 5. *)
Theorem generate_naca4_loop (code : string) (n : Z) (m p t : R) :
  parse_naca code = Ok (m, p, t) ->
  let N := effective_n n in
  exists s x_combined y_combined,
    Z.of_nat N = Z.max 3 n
    /\ surface_points m p t N = Ok s
    /\ List.length (xu s) = N /\ List.length (yu s) = N
    /\ List.length (xl s) = N /\ List.length (yl s) = N
    /\ generate_naca4 code n = Ok (x_combined, y_combined, (m, p, t))
    /\ x_combined = rev (xu s) ++ skipn 1 (xl s)
    /\ y_combined = rev (yu s) ++ skipn 1 (yl s)
    /\ List.length x_combined = (2 * N - 1)%nat
    /\ List.length y_combined = (2 * N - 1)%nat
    /\ (5 <= 2 * N - 1)%nat.
Proof.
  intros H N. pose proof (effective_n_ge3 n) as HN. fold N in HN.
  set (s := surfaces_of m p t (cosine_spacing N)).
  exists s, (rev (xu s) ++ skipn 1 (xl s)), (rev (yu s) ++ skipn 1 (yl s)).
  assert (Hlen : List.length (xu s) = N /\ List.length (yu s) = N /\
                 List.length (xl s) = N /\ List.length (yl s) = N).
  { unfold s, surfaces_of; cbn [xu yu xl yl].
    rewrite !length_map, cosine_spacing_length. repeat split. }
  destruct Hlen as (Hxu & Hyu & Hxl & Hyl).
  split; [unfold N, effective_n; lia|].
  split; [apply surface_points_pointwise, (parse_naca_safe _ _ _ _ _ H)|].
  do 4 (split; [assumption|]).
  split; [apply (generate_naca4_pointwise _ _ _ _ _ H)|].
  split; [reflexivity|]. split; [reflexivity|].
  rewrite !length_app, !length_rev, !length_skipn, Hxu, Hyu, Hxl, Hyl.
  repeat split; lia.
Qed.

Lemma generate_naca4_loop_witness :
  exists x_combined y_combined,
    generate_naca4 "2412" 1 =
      Ok (x_combined, y_combined, (2 / 100, 4 / 10, 12 / 100))
    /\ List.length x_combined = 5%nat.
Proof.
  destruct (generate_naca4_loop "2412" 1 (2 / 100) (4 / 10) (12 / 100) eq_refl)
    as (s & xc & yc & _ & _ & _ & _ & _ & _ & Hg & _ & _ & Hl & _).
  exists xc, yc. split; [exact Hg | exact Hl].
Defined.

(** ** Profiles without camber *)

Section NoCamber.

Variables m p t : R.
Hypothesis Hflat : m = 0 \/ p = 0.

Lemma camber_at_symmetric (x : R) : camber_at m p x = (0, 0).
Proof.
  unfold camber_at.
  replace (Reqb m 0 || Reqb p 0) with true; [reflexivity|].
  symmetry. apply orb_true_iff.
  destruct Hflat as [H|H]; [left|right]; apply Reqb_true; exact H.
Qed.

Lemma theta_at_symmetric (x : R) : theta_at m p x = 0.
Proof.
  unfold theta_at, dyc_at. rewrite camber_at_symmetric. apply atan_0.
Qed.

Lemma surface_at_symmetric (x : R) :
  xu_at m p t x = x /\ xl_at m p t x = x /\
  yu_at m p t x = thickness_at t x /\ yl_at m p t x = - thickness_at t x.
Proof.
  unfold xu_at, xl_at, yu_at, yl_at, yc_at.
  rewrite theta_at_symmetric, camber_at_symmetric.
  rewrite sin_0, cos_0. cbn [fst]. repeat split; ring.
Qed.

Lemma surfaces_symmetric (x : list R) :
  let s := surfaces_of m p t x in
  xu s = x /\ xl s = x /\
  yu s = map (thickness_at t) x /\ yl s = map Ropp (yu s).
Proof.
  intros s. unfold s, surfaces_of. cbn [xu yu xl yl].
  assert (Hx : forall f : R -> R, (forall a, f a = a) -> map f x = x).
  { intros f Hf. rewrite <- (map_id x) at 2. apply map_ext. exact Hf. }
  split; [apply Hx; intros a; apply (surface_at_symmetric a)|].
  split; [apply Hx; intros a; apply (surface_at_symmetric a)|].
  split.
  - apply map_ext. intros a. apply (surface_at_symmetric a).
  - rewrite map_map. apply map_ext. intros a.
    destruct (surface_at_symmetric a) as (_ & _ & Hu & Hl).
    rewrite Hu, Hl. reflexivity.
Qed.

End NoCamber.

(** C9.  A code whose first digit is 0 has [m = 0].  For such a code and any
    point count the lower surface is the mirror image of the upper one: the
    same abscissae, which are the parameter values themselves, and opposite
    ordinates; the loop is built from these two surfaces. *)
Theorem zero_camber_symmetric (code : string) (n : Z) (m p t : R) :
  parse_naca code = Ok (m, p, t) ->
  m = 0 ->
  exists s,
    surface_points m p t (effective_n n) = Ok s
    /\ xl s = xu s
    /\ yl s = map Ropp (yu s)
    /\ xu s = cosine_spacing (effective_n n)
    /\ (forall i, (i < effective_n n)%nat ->
          nth i (xl s) 0 = nth i (xu s) 0 /\
          nth i (yl s) 0 = - nth i (yu s) 0)
    /\ generate_naca4 code n =
       Ok (rev (xu s) ++ skipn 1 (xu s),
           rev (yu s) ++ skipn 1 (map Ropp (yu s)), (m, p, t)).
Proof.
  intros H Hm.
  set (x := cosine_spacing (effective_n n)).
  exists (surfaces_of m p t x).
  destruct (surfaces_symmetric m p t (or_introl Hm) x) as (Hxu & Hxl & Hyu & Hyl).
  split; [apply surface_points_pointwise, (parse_naca_safe _ _ _ _ _ H)|].
  split; [rewrite Hxu, Hxl; reflexivity|].
  split; [exact Hyl|].
  split; [exact Hxu|].
  split.
  - intros i Hi. rewrite Hxu, Hxl, Hyl. split; [reflexivity|].
    rewrite (nth_indep _ 0 (- 0)).
    + apply map_nth.
    + rewrite length_map, Hyu, length_map. unfold x.
      rewrite cosine_spacing_length. exact Hi.
  - rewrite (generate_naca4_pointwise _ _ _ _ _ H). cbv zeta. fold x.
    rewrite Hyl, Hxl, Hxu. reflexivity.
Qed.

Lemma zero_camber_symmetric_witness :
  exists s,
    surface_points (0 / 100) (0 / 10) (12 / 100) (effective_n 5) = Ok s
    /\ xl s = xu s /\ yl s = map Ropp (yu s).
Proof.
  assert (Hm : 0 / 100 = 0) by lra.
  destruct (zero_camber_symmetric "0012" 5 (0 / 100) (0 / 10) (12 / 100)
              eq_refl Hm) as (s & Hs & Hx & Hy & _).
  exists s. split; [exact Hs|]. split; [exact Hx | exact Hy].
Defined.

(** ** The two camber segments at their junction *)

(** C10.  At [x = p] the forward and the aft segment give the same camber
    value, [m], and the same slope, 0; [camber_line] itself returns these at
    [x = p]. *)
Theorem camber_segments_agree_at_p (m p : R) :
  0 < m <= 0.09 -> 0 < p <= 0.9 ->
  forward_yc m p p = m /\ aft_yc m p p = m
  /\ forward_dyc m p p = 0 /\ aft_dyc m p p = 0
  /\ camber_line [p] m p = Ok ([m], [0]).
Proof.
  intros Hm Hp.
  assert (Hf : forward_yc m p p = m) by (unfold forward_yc; field; lra).
  assert (Hfd : forward_dyc m p p = 0) by (unfold forward_dyc; field; lra).
  split; [exact Hf|].
  split; [unfold aft_yc; field; lra|].
  split; [exact Hfd|].
  split; [unfold aft_dyc; field; lra|].
  rewrite camber_line_pointwise.
  - cbn [map]. unfold yc_at, dyc_at, camber_at.
    repeat decide_test. cbn [orb fst snd]. rewrite Hf, Hfd. reflexivity.
  - intros (_ & Hp1 & _). lra.
Qed.

Lemma camber_segments_agree_at_p_witness :
  forward_yc 0.02 0.4 0.4 = 0.02 /\ aft_yc 0.02 0.4 0.4 = 0.02.
Proof.
  assert (Hm : 0 < 0.02 <= 0.09) by lra.
  assert (Hp : 0 < 0.4 <= 0.9) by lra.
  destruct (camber_segments_agree_at_p 0.02 0.4 Hm Hp) as (H1 & H2 & _).
  split; [exact H1 | exact H2].
Defined.

(** ** Abscissae of the surface points *)

Lemma In_skipn {A : Type} (k : nat) (l : list A) (a : A) :
  In a (skipn k l) -> In a l.
Proof.
  intros H. rewrite <- (firstn_skipn k l). apply in_or_app. right. exact H.
Qed.

Lemma cosine_spacing_first (n : nat) : (2 <= n)%nat -> In 0 (cosine_spacing n).
Proof.
  intros H. replace 0 with (nth 0 (cosine_spacing n) 0) at 1.
  - apply nth_In. rewrite cosine_spacing_length. lia.
  - rewrite cosine_spacing_nth by lia. simpl INR. rewrite Rmult_0_l, cos_0. lra.
Qed.

Lemma cosine_spacing_last (n : nat) : (2 <= n)%nat -> In 1 (cosine_spacing n).
Proof.
  intros H. replace 1 with (nth (n - 1) (cosine_spacing n) 0) at 1.
  - apply nth_In. rewrite cosine_spacing_length. lia.
  - rewrite cosine_spacing_nth by lia. rewrite last_angle by exact H.
    rewrite cos_PI. lra.
Qed.

Lemma thickness_at_0 (t : R) : thickness_at t 0 = 0.
Proof.
  unfold thickness_at. rewrite Rmax_left by lra. rewrite sqrt_0. ring.
Qed.

Lemma thickness_at_1 (t : R) : thickness_at t 1 = 0.0105 * t.
Proof.
  unfold thickness_at. rewrite Rmax_left by lra. rewrite sqrt_1. lra.
Qed.

Lemma thickness_zero (x : R) : thickness_at 0 x = 0.
Proof. unfold thickness_at. ring. Qed.

(** At the trailing edge of a cambered profile the slope of the camber line
    is [- 2 m / (1 - p)]. *)
Lemma dyc_at_trailing (m p : R) :
  m <> 0 -> p <> 0 -> p + 1e-12 <= 1 ->
  dyc_at m p 1 = - (2 * m / (1 - p)).
Proof.
  intros Hm Hp Hp1. unfold dyc_at, camber_at.
  repeat decide_test. cbn [orb snd]. unfold aft_dyc. field. lra.
Qed.

Lemma sin_theta_trailing (m p : R) :
  m <> 0 -> p <> 0 -> p + 1e-12 <= 1 ->
  sin (theta_at m p 1) =
  - ((2 * m / (1 - p)) / sqrt (1 + (2 * m / (1 - p))²)).
Proof.
  intros Hm Hp Hp1. unfold theta_at.
  rewrite (dyc_at_trailing _ _ Hm Hp Hp1), sin_atan, <- Rsqr_neg.
  unfold Rdiv. ring.
Qed.

Lemma sqrt_one_plus_sqr_pos (d : R) : 0 < sqrt (1 + d²).
Proof.
  apply sqrt_lt_R0. pose proof (Rle_0_sqr d). lra.
Qed.

(** The upper surface of a cambered profile with thickness ends behind the
    chord, the lower surface in front of its end. *)
Lemma xu_at_trailing (m p t : R) :
  0 < m -> 0 < p -> p + 1e-12 <= 1 ->
  xu_at m p t 1 =
  1 + 0.0105 * t * ((2 * m / (1 - p)) / sqrt (1 + (2 * m / (1 - p))²)).
Proof.
  intros Hm Hp Hp1. unfold xu_at.
  rewrite thickness_at_1, sin_theta_trailing by lra. ring.
Qed.

Lemma xu_at_trailing_gt (m p t : R) :
  0 < m -> 0 < p -> p + 1e-12 <= 1 -> 0 < t -> 1 < xu_at m p t 1.
Proof.
  intros Hm Hp Hp1 Ht. rewrite xu_at_trailing by assumption.
  assert (Hd : 0 < 2 * m / (1 - p)) by (apply Rdiv_lt_0_compat; lra).
  pose proof (sqrt_one_plus_sqr_pos (2 * m / (1 - p))) as Hs.
  assert (0 < (2 * m / (1 - p)) / sqrt (1 + (2 * m / (1 - p))²))
    by (apply Rdiv_lt_0_compat; assumption).
  assert (0 < 0.0105 * t) by lra.
  pose proof (Rmult_lt_0_compat _ _ H0 H). lra.
Qed.

Lemma surface_x_flat (m p t x : R) :
  m = 0 \/ p = 0 \/ t = 0 -> xu_at m p t x = x /\ xl_at m p t x = x.
Proof.
  intros [H|[H|H]].
  - destruct (surface_at_symmetric m p t (or_introl H) x) as (H1 & H2 & _).
    split; assumption.
  - destruct (surface_at_symmetric m p t (or_intror H) x) as (H1 & H2 & _).
    split; assumption.
  - unfold xu_at, xl_at. rewrite H, thickness_zero. split; ring.
Qed.

Lemma loop_x_in_unit_char (code : string) (n : Z) (m p t : R) :
  parse_naca code = Ok (m, p, t) ->
  (loop_x_in_unit code n <-> (m = 0 \/ p = 0 \/ t = 0)).
Proof.
  intros H.
  pose proof (effective_n_ge3 n) as HN.
  pose proof (cosine_spacing_unit (effective_n n)) as Hunit.
  unfold loop_x_in_unit.
  rewrite (generate_naca4_pointwise _ _ _ _ _ H). cbv zeta.
  unfold surfaces_of. cbn [xu yu xl yl].
  split.
  - intros Hall.
    destruct (parse_naca_values _ _ _ _ H)
      as (d0 & d1 & d23 & Hd0 & Hd1 & Hd23 & Hm & Hp & Ht).
    destruct (Z.eq_dec d0 0) as [->|N0]; [left; lra|].
    destruct (Z.eq_dec d1 0) as [->|N1]; [right; left; lra|].
    destruct (Z.eq_dec d23 0) as [->|N23]; [right; right; lra|].
    exfalso.
    assert (1 <= IZR d0 <= 9) by (split; apply IZR_le; lia).
    assert (1 <= IZR d1 <= 9) by (split; apply IZR_le; lia).
    assert (1 <= IZR d23) by (apply IZR_le; lia).
    assert (Hgt : 1 < xu_at m p t 1) by (apply xu_at_trailing_gt; lra).
    specialize (Hall _ _ _ eq_refl).
    rewrite Forall_forall in Hall.
    assert (Hin : In (xu_at m p t 1)
                    (rev (map (xu_at m p t) (cosine_spacing (effective_n n))) ++
                     skipn 1 (map (xl_at m p t) (cosine_spacing (effective_n n))))).
    { apply in_or_app. left. apply -> in_rev. apply in_map.
      apply cosine_spacing_last. lia. }
    apply Hall in Hin. lra.
  - intros Hz xs ys prm Heq.
    assert (Hxs : xs = rev (map (xu_at m p t) (cosine_spacing (effective_n n))) ++
                       skipn 1 (map (xl_at m p t) (cosine_spacing (effective_n n))))
      by congruence.
    rewrite Hxs.
    rewrite Forall_forall in Hunit. apply Forall_forall. intros v Hv.
    apply in_app_or in Hv. destruct Hv as [Hv|Hv].
    + apply in_rev in Hv. apply in_map_iff in Hv. destruct Hv as (x & <- & Hx).
      destruct (surface_x_flat m p t x Hz) as [-> _]. apply Hunit, Hx.
    + apply In_skipn in Hv. apply in_map_iff in Hv. destruct Hv as (x & <- & Hx).
      destruct (surface_x_flat m p t x Hz) as [_ ->]. apply Hunit, Hx.
Qed.

(** C1 (as the code has it).  The parameter values are in [0,1] for every
    count.  The abscissae [xu] and [xl] of the surface points are the
    parameter values themselves, hence in [0,1], when the code has no camber
    or no thickness ([m = 0], [p = 0] or [t = 0]); for every other code the
    loop has a point outside [0,1]. *)
Theorem surface_x_in_unit_iff (code : string) (n : Z) (m p t : R) :
  parse_naca code = Ok (m, p, t) ->
  Forall (fun x => 0 <= x <= 1) (cosine_spacing (effective_n n))
  /\ (loop_x_in_unit code n <-> (m = 0 \/ p = 0 \/ t = 0))
  /\ (m = 0 \/ p = 0 \/ t = 0 ->
      forall x, xu_at m p t x = x /\ xl_at m p t x = x).
Proof.
  intros H.
  split; [apply cosine_spacing_unit|].
  split; [apply loop_x_in_unit_char; exact H|].
  intros Hz x. apply surface_x_flat. exact Hz.
Qed.

Lemma surface_x_in_unit_iff_witness :
  loop_x_in_unit "0012" 5 <-> (0 / 100 = 0 \/ 0 / 10 = 0 \/ 12 / 100 = 0).
Proof.
  apply (surface_x_in_unit_iff "0012" 5 (0 / 100) (0 / 10) (12 / 100) eq_refl).
Defined.

(** C1, the claim as stated fails: the loop of "2412" with three points per
    surface has an abscissa greater than 1. *)
Lemma surface_x_leaves_unit_2412 : ~ loop_x_in_unit "2412" 3.
Proof.
  intros Hc.
  apply (loop_x_in_unit_char "2412" 3 (2 / 100) (4 / 10) (12 / 100) eq_refl)
    in Hc.
  lra.
Qed.

(** ** Bounding box *)

Lemma fold_left_Rmin_le (a : list R) (v : R) :
  fold_left Rmin a v <= v /\ forall u, In u a -> fold_left Rmin a v <= u.
Proof.
  revert v. induction a as [|w a IH]; intros v; cbn [fold_left].
  - split; [lra | intros u []].
  - destruct (IH (Rmin v w)) as [H1 H2].
    pose proof (Rmin_l v w). pose proof (Rmin_r v w).
    split; [lra|]. intros u [<-|Hu]; [lra | apply H2, Hu].
Qed.

Lemma fold_left_Rmax_ge (a : list R) (v : R) :
  v <= fold_left Rmax a v /\ forall u, In u a -> u <= fold_left Rmax a v.
Proof.
  revert v. induction a as [|w a IH]; intros v; cbn [fold_left].
  - split; [lra | intros u []].
  - destruct (IH (Rmax v w)) as [H1 H2].
    pose proof (Rmax_l v w). pose proof (Rmax_r v w).
    split; [lra|]. intros u [<-|Hu]; [lra | apply H2, Hu].
Qed.

Lemma fold_left_Rmin_in (a : list R) (v : R) :
  fold_left Rmin a v = v \/ In (fold_left Rmin a v) a.
Proof.
  revert v. induction a as [|w a IH]; intros v; cbn [fold_left].
  - left. reflexivity.
  - destruct (IH (Rmin v w)) as [H|H].
    + rewrite H. unfold Rmin. destruct (Rle_dec v w); [left|right; left]; reflexivity.
    + right. right. exact H.
Qed.

Lemma fold_left_Rmax_in (a : list R) (v : R) :
  fold_left Rmax a v = v \/ In (fold_left Rmax a v) a.
Proof.
  revert v. induction a as [|w a IH]; intros v; cbn [fold_left].
  - left. reflexivity.
  - destruct (IH (Rmax v w)) as [H|H].
    + rewrite H. unfold Rmax. destruct (Rle_dec v w); [right; left|left]; reflexivity.
    + right. right. exact H.
Qed.

Lemma amin_le (a : list R) (u : R) : In u a -> amin a <= u.
Proof.
  destruct a as [|v a]; [intros []|]. cbn [amin].
  destruct (fold_left_Rmin_le a v) as [H1 H2].
  intros [<-|Hu]; [exact H1 | apply H2, Hu].
Qed.

Lemma amax_ge (a : list R) (u : R) : In u a -> u <= amax a.
Proof.
  destruct a as [|v a]; [intros []|]. cbn [amax].
  destruct (fold_left_Rmax_ge a v) as [H1 H2].
  intros [<-|Hu]; [exact H1 | apply H2, Hu].
Qed.

Lemma amin_in (a : list R) : a <> [] -> In (amin a) a.
Proof.
  destruct a as [|v a]; [congruence|]. intros _. cbn [amin].
  destruct (fold_left_Rmin_in a v) as [->|H]; [left; reflexivity | right; exact H].
Qed.

Lemma amax_in (a : list R) : a <> [] -> In (amax a) a.
Proof.
  destruct a as [|v a]; [congruence|]. intros _. cbn [amax].
  destruct (fold_left_Rmax_in a v) as [->|H]; [left; reflexivity | right; exact H].
Qed.

(** The span of a column covers the distance of any two of its entries. *)
Lemma span_ge (a : list R) (u v : R) : In u a -> In v a -> v - u <= span a.
Proof.
  intros Hu Hv. unfold span.
  pose proof (amin_le a u Hu). pose proof (amax_ge a v Hv). lra.
Qed.

Lemma span_zero_iff (a : list R) :
  span a = 0 <-> (forall u v, In u a -> In v a -> u = v).
Proof.
  split.
  - intros H u v Hu Hv.
    pose proof (span_ge a u v Hu Hv). pose proof (span_ge a v u Hv Hu). lra.
  - intros H. destruct a as [|w a]; [unfold span; cbn; lra|].
    unfold span.
    rewrite (H (amax (w :: a)) (amin (w :: a))).
    + lra.
    + apply amax_in. discriminate.
    + apply amin_in. discriminate.
Qed.

Lemma all_finite_inject (pts : list point3R) :
  all_finite (map inject_point pts) = Some pts.
Proof.
  induction pts as [|[[x y] z] pts IH]; [reflexivity|].
  cbn [map all_finite inject_point finite_point finite_value].
  rewrite IH. reflexivity.
Qed.

Lemma all_finite_inv (coords : list point3) (pts : list point3R) :
  all_finite coords = Some pts -> coords = map inject_point pts.
Proof.
  revert pts. induction coords as [|[[a b] c] coords IH]; intros pts.
  - cbn. intros [= <-]. reflexivity.
  - cbn [all_finite finite_point].
    destruct a as [x|], b as [y|], c as [z|]; cbn [finite_value]; try discriminate.
    destruct (all_finite coords) as [rs|]; [|discriminate].
    intros [= <-]. cbn [map inject_point]. rewrite (IH rs eq_refl). reflexivity.
Qed.

Lemma triple_eq (a b c a' b' c' : R) :
  (a, b, c) = (a', b', c') <-> a = a' /\ b = b' /\ c = c'.
Proof.
  split; [intros [= -> -> ->]; repeat split | intros (-> & -> & ->); reflexivity].
Qed.

Lemma spans_zero_iff (pts : list point3R) :
  spans pts = (0, 0, 0) <-> (forall q r, In q pts -> In r pts -> q = r).
Proof.
  unfold spans. rewrite triple_eq, !span_zero_iff. split.
  - intros (HX & HY & HZ) [[x y] z] [[x' y'] z'] Hq Hr.
    apply triple_eq. repeat split.
    + apply HX.
      * apply (in_map (fun q => fst (fst q)) _ _ Hq).
      * apply (in_map (fun q => fst (fst q)) _ _ Hr).
    + apply HY.
      * apply (in_map (fun q => snd (fst q)) _ _ Hq).
      * apply (in_map (fun q => snd (fst q)) _ _ Hr).
    + apply HZ.
      * apply (in_map (fun q => snd q) _ _ Hq).
      * apply (in_map (fun q => snd q) _ _ Hr).
  - intros H. unfold colX, colY, colZ.
    repeat split; intros u v Hu Hv;
      apply in_map_iff in Hu; apply in_map_iff in Hv;
      destruct Hu as (q & <- & Hq); destruct Hv as (r & <- & Hr);
      rewrite (H q r Hq Hr); reflexivity.
Qed.

Lemma validate_geometry_finite (pts : list point3R) :
  pts <> [] ->
  validate_geometry (map inject_point pts) =
  if Reqb (span (colX pts)) 0 && Reqb (span (colY pts)) 0
     && Reqb (span (colZ pts)) 0
  then Err DegenerateGeometry else Ok true.
Proof.
  intros Hne. unfold validate_geometry. rewrite all_finite_inject.
  destruct pts as [|q pts]; [congruence|]. reflexivity.
Qed.

Lemma all_spans_zero (pts : list point3R) :
  Reqb (span (colX pts)) 0 && Reqb (span (colY pts)) 0
  && Reqb (span (colZ pts)) 0 = true <-> spans pts = (0, 0, 0).
Proof.
  unfold spans. rewrite triple_eq, !andb_true_iff, !Reqb_true. tauto.
Qed.

(** ** The embedding in space *)

Lemma combine3_embed (a : axis) (c : R) (x2d y2d : list R) :
  List.length x2d = List.length y2d ->
  map inject_point (map (embed a c) (combine x2d y2d)) =
  match a with
  | AxisX => combine (combine (zeros3 x2d) (scale_array (Fin c) x2d))
               (scale_array (Fin c) y2d)
  | AxisY => combine (combine (scale_array (Fin c) x2d) (zeros3 x2d))
               (scale_array (Fin c) y2d)
  | AxisZ => combine (combine (scale_array (Fin c) x2d) (scale_array (Fin c) y2d))
               (zeros3 x2d)
  end.
Proof.
  revert y2d. induction x2d as [|x xs IH]; intros [|y ys] Hlen;
    try discriminate Hlen.
  - destruct a; reflexivity.
  - injection Hlen as Hlen. specialize (IH ys Hlen).
    destruct a; cbn [combine map embed inject_point zeros3 scale_array] in *;
      rewrite IH; reflexivity.
Qed.

Lemma map_to_3d_finite (x2d y2d : list R) (normal : string) (a : axis) (c : R) :
  axis_of normal = Some a ->
  List.length x2d = List.length y2d ->
  map_to_3d x2d y2d normal (Fin c) =
  Ok (map inject_point (map (embed a c) (combine x2d y2d))).
Proof.
  intros Ha Hlen. rewrite (combine3_embed a c _ _ Hlen).
  unfold map_to_3d, axis_of, normalized in *.
  set (norm := string_of_list_ascii (PyStr.upper (PyStr.chars normal))) in *.
  assert (Hv : forall X Y Z : list npfloat,
             List.length X = List.length x2d -> List.length Y = List.length x2d ->
             List.length Z = List.length x2d ->
             vstack_T X Y Z = Ok (combine (combine X Y) Z)).
  { intros X Y Z HX HY HZ. unfold vstack_T. rewrite HX, HY, HZ, Nat.eqb_refl.
    reflexivity. }
  assert (Hz : List.length (zeros3 x2d) = List.length x2d)
    by (unfold zeros3; apply length_map).
  assert (Hsx : List.length (scale_array (Fin c) x2d) = List.length x2d)
    by (unfold scale_array; apply length_map).
  assert (Hsy : List.length (scale_array (Fin c) y2d) = List.length x2d)
    by (unfold scale_array; rewrite length_map; symmetry; exact Hlen).
  destruct (String.eqb norm "X") eqn:EX.
  { injection Ha as <-. cbn [orb negb]. apply Hv; assumption. }
  destruct (String.eqb norm "Y") eqn:EY.
  { injection Ha as <-. cbn [orb negb]. apply Hv; assumption. }
  destruct (String.eqb norm "Z") eqn:EZ; [|discriminate].
  injection Ha as <-. cbn [orb negb]. apply Hv; assumption.
Qed.

Lemma map_fst_combine {A B : Type} (a : list A) (b : list B) :
  List.length a = List.length b -> map fst (combine a b) = a.
Proof.
  revert b. induction a as [|u a IH]; intros [|v b] H; try discriminate H.
  - reflexivity.
  - injection H as H. cbn. rewrite (IH b H). reflexivity.
Qed.

Lemma map_snd_combine {A B : Type} (a : list A) (b : list B) :
  List.length a = List.length b -> map snd (combine a b) = b.
Proof.
  revert b. induction a as [|u a IH]; intros [|v b] H; try discriminate H.
  - reflexivity.
  - injection H as H. cbn. rewrite (IH b H). reflexivity.
Qed.

(** The columns of the embedded loop. *)
Lemma embed_columns (a : axis) (c : R) (x2d y2d : list R) :
  List.length x2d = List.length y2d ->
  let pts := map (embed a c) (combine x2d y2d) in
  match a with
  | AxisX => colX pts = map (fun _ => 0) x2d /\ colY pts = map (Rmult c) x2d
             /\ colZ pts = map (Rmult c) y2d
  | AxisY => colX pts = map (Rmult c) x2d /\ colY pts = map (fun _ => 0) x2d
             /\ colZ pts = map (Rmult c) y2d
  | AxisZ => colX pts = map (Rmult c) x2d /\ colY pts = map (Rmult c) y2d
             /\ colZ pts = map (fun _ => 0) x2d
  end.
Proof.
  intros Hlen pts. unfold pts, colX, colY, colZ. rewrite !map_map.
  pose proof (map_fst_combine x2d y2d Hlen) as Hf.
  pose proof (map_snd_combine x2d y2d Hlen) as Hs.
  assert (Hx : forall f : R -> R,
             map (fun xy : R * R => f (fst xy)) (combine x2d y2d) = map f x2d).
  { intros f. rewrite <- Hf at 2. rewrite map_map. reflexivity. }
  assert (Hy : forall f : R -> R,
             map (fun xy : R * R => f (snd xy)) (combine x2d y2d) = map f y2d).
  { intros f. rewrite <- Hs at 2. rewrite map_map. reflexivity. }
  destruct a; repeat split;
    first [ rewrite <- (Hx (Rmult c)) | rewrite <- (Hy (Rmult c))
          | rewrite <- (Hx (fun _ => 0)) ];
    apply map_ext; intros [x y]; reflexivity.
Qed.

(** ** Validation of the generated geometry *)

Lemma xu_at_leading (m p t : R) : xu_at m p t 0 = 0.
Proof. unfold xu_at. rewrite thickness_at_0. ring. Qed.

Lemma xu_at_trailing_pos (m p t : R) : 0 <= t <= 0.99 -> 0 < xu_at m p t 1.
Proof.
  intros Ht. unfold xu_at. rewrite thickness_at_1.
  pose proof (SIN_bound (theta_at m p 1)) as [Hs1 Hs2].
  assert (0.0105 * t * sin (theta_at m p 1) <= 0.0105 * t * 1)
    by (apply Rmult_le_compat_l; lra).
  lra.
Qed.

Lemma validate_geometry_two_values (pts : list point3R) (u v : R) :
  u <> v ->
  (In u (colX pts) /\ In v (colX pts)) \/
  (In u (colY pts) /\ In v (colY pts)) \/
  (In u (colZ pts) /\ In v (colZ pts)) ->
  validate_geometry (map inject_point pts) = Ok true.
Proof.
  intros Huv Hin.
  assert (Hne : pts <> []).
  { intros ->. cbn in Hin. tauto. }
  rewrite (validate_geometry_finite _ Hne).
  destruct (Reqb (span (colX pts)) 0 && Reqb (span (colY pts)) 0
            && Reqb (span (colZ pts)) 0) eqn:E; [|reflexivity].
  exfalso. apply Huv.
  rewrite !andb_true_iff, !Reqb_true in E. destruct E as [[EX EY] EZ].
  rewrite span_zero_iff in EX, EY, EZ.
  destruct Hin as [[Hu Hv]|[[Hu Hv]|[Hu Hv]]]; auto.
Qed.

(** The loop of a code that parses: its two coordinate lists have the same
    length and the abscissae contain those of the two ends of the upper
    surface. *)
Lemma generate_naca4_ends (code : string) (n : Z) (m p t : R) :
  parse_naca code = Ok (m, p, t) ->
  exists xs ys,
    generate_naca4 code n = Ok (xs, ys, (m, p, t))
    /\ List.length xs = (2 * effective_n n - 1)%nat
    /\ List.length ys = (2 * effective_n n - 1)%nat
    /\ In 0 xs /\ In (xu_at m p t 1) xs.
Proof.
  intros H. pose proof (effective_n_ge3 n) as HN.
  rewrite (generate_naca4_pointwise _ _ _ _ _ H). cbv zeta.
  unfold surfaces_of. cbn [xu yu xl yl].
  eexists _, _. split; [reflexivity|].
  rewrite !length_app, !length_rev, !length_skipn, !length_map,
    cosine_spacing_length.
  split; [lia|]. split; [lia|].
  split; apply in_or_app; left; apply -> in_rev.
  - rewrite <- (xu_at_leading m p t). apply in_map, cosine_spacing_first. lia.
  - apply in_map, cosine_spacing_last. lia.
Qed.

Lemma parse_naca_thickness (code : string) (m p t : R) :
  parse_naca code = Ok (m, p, t) -> 0 <= t <= 0.99.
Proof.
  intros H.
  destruct (parse_naca_values _ _ _ _ H) as (d0 & d1 & d23 & _ & _ & Hd & _ & _ & ->).
  assert (0 <= IZR d23 <= 99) by (split; apply IZR_le; lia). lra.
Qed.

(** With a valid axis and a finite, nonzero chord, the geometry of every code
    that parses passes validation. *)
Lemma generate_embed_validate_ok (code normal : string) (a : axis) (c : R)
  (n : Z) (m p t : R) :
  parse_naca code = Ok (m, p, t) ->
  axis_of normal = Some a ->
  c <> 0 ->
  exists xs ys,
    generate_naca4 code n = Ok (xs, ys, (m, p, t))
    /\ List.length xs = (2 * effective_n n - 1)%nat
    /\ List.length ys = (2 * effective_n n - 1)%nat
    /\ In 0 xs /\ In (xu_at m p t 1) xs
    /\ generate_embed_validate code normal (Fin c) n =
       Ok (map inject_point (map (embed a c) (combine xs ys))).
Proof.
  intros H Ha Hc.
  destruct (generate_naca4_ends code n m p t H) as (xs & ys & Hg & Hlx & Hly & H0 & H1).
  exists xs, ys. do 4 (split; [assumption|]). split; [assumption|].
  assert (Hlen : List.length xs = List.length ys) by congruence.
  unfold generate_embed_validate. rewrite Hg. cbn [bind].
  rewrite (map_to_3d_finite _ _ _ _ _ Ha Hlen). cbn [bind].
  pose proof (xu_at_trailing_pos m p t (parse_naca_thickness _ _ _ _ H)) as Hpos.
  assert (Hne : c * 0 <> c * xu_at m p t 1).
  { intros E. rewrite Rmult_0_r in E. symmetry in E.
    apply Rmult_integral in E. destruct E; lra. }
  rewrite (validate_geometry_two_values _ _ _ Hne); [reflexivity|].
  pose proof (embed_columns a c xs ys Hlen) as Hcol. cbv zeta in Hcol.
  destruct a; destruct Hcol as (HX & HY & HZ).
  - right; left. rewrite HY. split; apply in_map; assumption.
  - left. rewrite HX. split; apply in_map; assumption.
  - left. rewrite HX. split; apply in_map; assumption.
Qed.

Lemma main_core_step (code normal : string) (chord : npfloat) (points n : Z) :
  compute_n_per_surface_from_total (Z.max 3 points) = Ok n ->
  main_core code normal chord points =
  generate_embed_validate code (normalized normal) chord n.
Proof.
  intros H. unfold main_core. rewrite H. reflexivity.
Qed.

Lemma upper_char_idem (c : ascii) :
  PyStr.upper_char (PyStr.upper_char c) = PyStr.upper_char c.
Proof.
  destruct c as [b0 b1 b2 b3 b4 b5 b6 b7].
  destruct b0, b1, b2, b3, b4, b5, b6, b7; reflexivity.
Qed.

Lemma normalized_idem (s : string) : normalized (normalized s) = normalized s.
Proof.
  unfold normalized, PyStr.chars, PyStr.upper.
  rewrite list_ascii_of_string_of_list_ascii, map_map.
  f_equal. apply map_ext, upper_char_idem.
Qed.

Lemma axis_of_normalized (s : string) : axis_of (normalized s) = axis_of s.
Proof. unfold axis_of. rewrite normalized_idem. reflexivity. Qed.

(** The run for a number of points that a binary64 float holds exactly. *)
Lemma main_core_below_2p53 (code normal : string) (chord : npfloat) (points : Z) :
  (points < 2 ^ 53)%Z ->
  main_core code normal chord points =
  generate_embed_validate code (normalized normal) chord
    (Z.max 3 ((Z.max 3 points + 2) / 2)).
Proof.
  intros H. apply main_core_step, compute_n_exact. lia.
Qed.

Lemma validate_degenerate_char (coords : list point3) :
  validate_geometry coords = Err DegenerateGeometry <->
  exists pts, coords = map inject_point pts /\ pts <> [] /\ spans pts = (0, 0, 0).
Proof.
  split.
  - unfold validate_geometry.
    destruct (all_finite coords) as [pts|] eqn:Hf; [|discriminate].
    apply all_finite_inv in Hf.
    destruct pts as [|q pts]; [discriminate|].
    set (P := q :: pts) in *.
    change (let '(sx, sy, sz) := spans P in
            if Reqb sx 0 && Reqb sy 0 && Reqb sz 0
            then Err DegenerateGeometry else Ok true)
      with (if Reqb (span (colX P)) 0 && Reqb (span (colY P)) 0
               && Reqb (span (colZ P)) 0
            then Err DegenerateGeometry else @Ok bool true).
    destruct (Reqb (span (colX P)) 0 && Reqb (span (colY P)) 0
              && Reqb (span (colZ P)) 0) eqn:E; [|discriminate].
    intros _. exists P. split; [exact Hf|]. split; [discriminate|].
    apply all_spans_zero, E.
  - intros (pts & -> & Hne & Hs).
    rewrite (validate_geometry_finite _ Hne).
    apply all_spans_zero in Hs. rewrite Hs. reflexivity.
Qed.

Lemma zero_code_ordinates (n : Z) (xs ys : list R) (prm : R * R * R) :
  generate_naca4 "0000" n = Ok (xs, ys, prm) -> Forall (fun y => y = 0) ys.
Proof.
  rewrite (generate_naca4_pointwise "0000" n (0 / 100) (0 / 10) (0 / 100) eq_refl).
  cbv zeta. unfold surfaces_of. cbn [xu yu xl yl]. intros Heq.
  assert (Hys : ys = rev (map (yu_at (0 / 100) (0 / 10) (0 / 100))
                            (cosine_spacing (effective_n n))) ++
                     skipn 1 (map (yl_at (0 / 100) (0 / 10) (0 / 100))
                                (cosine_spacing (effective_n n))))
    by congruence.
  rewrite Hys. apply Forall_forall. intros v Hv.
  assert (Hm : 0 / 100 = 0 \/ 0 / 10 = 0) by (left; lra).
  assert (Ht : forall x, thickness_at (0 / 100) x = 0).
  { intros x. replace (0 / 100) with 0 by lra. apply thickness_zero. }
  apply in_app_or in Hv. destruct Hv as [Hv|Hv].
  - apply in_rev in Hv. apply in_map_iff in Hv. destruct Hv as (x & <- & _).
    destruct (surface_at_symmetric _ _ (0 / 100) Hm x) as (_ & _ & -> & _).
    apply Ht.
  - apply In_skipn in Hv. apply in_map_iff in Hv. destruct Hv as (x & <- & _).
    destruct (surface_at_symmetric _ _ (0 / 100) Hm x) as (_ & _ & _ & ->).
    rewrite Ht. ring.
Qed.

(** C4.  [validate_geometry] raises [DegenerateGeometry] exactly when the
    point set is not empty, every coordinate is finite and the span is zero
    along each of the three axes, which is to say that all points coincide.
    (A coordinate that is not finite makes a span that is not zero, and is
    reported as [NonFiniteGeometry].)  The code "0000" with chord 1 passes
    validation for every point count and every axis, although all its
    ordinates are zero: its abscissae contain 0 and 1. *)
Theorem validate_degenerate_iff :
  (forall coords,
      validate_geometry coords = Err DegenerateGeometry <->
      exists pts,
        coords = map inject_point pts /\ pts <> [] /\ spans pts = (0, 0, 0))
  /\ (forall pts,
        spans pts = (0, 0, 0) <-> forall q r, In q pts -> In r pts -> q = r)
  /\ (forall n normal a,
        axis_of normal = Some a ->
        exists xs ys,
          generate_naca4 "0000" n = Ok (xs, ys, (0 / 100, 0 / 10, 0 / 100))
          /\ Forall (fun y => y = 0) ys
          /\ In 0 xs /\ In 1 xs
          /\ generate_embed_validate "0000" normal (Fin 1) n =
             Ok (map inject_point (map (embed a 1) (combine xs ys))))
  /\ (forall normal a points,
        axis_of normal = Some a ->
        (points < 2 ^ 53)%Z ->
        is_ok (main_core "0000" normal (Fin 1) points) = true).
Proof.
  assert (H0000 : forall n normal a,
        axis_of normal = Some a ->
        exists xs ys,
          generate_naca4 "0000" n = Ok (xs, ys, (0 / 100, 0 / 10, 0 / 100))
          /\ Forall (fun y => y = 0) ys
          /\ In 0 xs /\ In 1 xs
          /\ generate_embed_validate "0000" normal (Fin 1) n =
             Ok (map inject_point (map (embed a 1) (combine xs ys)))).
  { intros n normal a Ha.
    destruct (generate_embed_validate_ok "0000" normal a 1 n
                (0 / 100) (0 / 10) (0 / 100) eq_refl Ha ltac:(lra))
      as (xs & ys & Hg & _ & _ & Hin0 & Hin1 & Hv).
    exists xs, ys. split; [exact Hg|].
    split; [apply (zero_code_ordinates n xs ys _ Hg)|].
    split; [exact Hin0|]. split; [|exact Hv].
    destruct (surface_x_flat (0 / 100) (0 / 10) (0 / 100) 1
                ltac:(left; lra)) as [E _].
    rewrite E in Hin1. exact Hin1. }
  split; [exact validate_degenerate_char|].
  split; [exact spans_zero_iff|].
  split; [exact H0000|].
  intros normal a points Ha Hpts.
  rewrite (main_core_below_2p53 _ _ _ _ Hpts).
  rewrite <- axis_of_normalized in Ha.
  destruct (H0000 (Z.max 3 ((Z.max 3 points + 2) / 2)) _ a Ha)
    as (xs & ys & _ & _ & _ & _ & ->).
  reflexivity.
Qed.

Lemma validate_degenerate_iff_witness :
  exists xs ys,
    generate_naca4 "0000" 3 = Ok (xs, ys, (0 / 100, 0 / 10, 0 / 100))
    /\ generate_embed_validate "0000" "z" (Fin 1) 3 =
       Ok (map inject_point (map (embed AxisZ 1) (combine xs ys))).
Proof.
  destruct validate_degenerate_iff as (_ & _ & H & _).
  destruct (H 3%Z "z"%string AxisZ eq_refl) as (xs & ys & Hg & _ & _ & _ & Hv).
  exists xs, ys. split; [exact Hg | exact Hv].
Defined.

(** ** A camber location of zero *)

Lemma camber_line_guard (x : list R) (m p : R) :
  m = 0 \/ p = 0 -> camber_line x m p = Ok (zeros_like x, zeros_like x).
Proof.
  intros H. unfold camber_line.
  replace (Reqb m 0 || Reqb p 0) with true; [reflexivity|].
  symmetry. apply orb_true_iff.
  destruct H as [H|H]; [left|right]; apply Reqb_true; exact H.
Qed.

(** With a finite chord the only error left to validation is degeneracy. *)
Lemma generate_embed_validate_finite (code normal : string) (a : axis) (c : R)
  (n : Z) (m p t : R) :
  parse_naca code = Ok (m, p, t) ->
  axis_of normal = Some a ->
  generate_embed_validate code normal (Fin c) n = Err DegenerateGeometry
  \/ is_ok (generate_embed_validate code normal (Fin c) n) = true.
Proof.
  intros H Ha.
  destruct (generate_naca4_ends code n m p t H) as (xs & ys & Hg & Hlx & Hly & H0 & _).
  assert (Hlen : List.length xs = List.length ys) by congruence.
  unfold generate_embed_validate. rewrite Hg. cbn [bind].
  rewrite (map_to_3d_finite _ _ _ _ _ Ha Hlen). cbn [bind].
  rewrite validate_geometry_finite.
  - destruct (Reqb _ 0 && Reqb _ 0 && Reqb _ 0); [left | right]; reflexivity.
  - destruct xs as [|x xs]; [destruct H0|].
    destruct ys as [|y ys]; [discriminate Hlen|]. discriminate.
Qed.

(** C2 (as the code has it).  When the camber location of a code is 0,
    whatever its camber, [camber_line] takes its first branch: camber and
    slope are zero at every abscissa and nothing is divided by [p].  The
    coordinates are finite: with a valid axis and a finite chord the run does
    not fail with [NonFiniteGeometry], and it succeeds when the chord is not
    zero. *)
Theorem zero_camber_location_guarded (code : string) (m p t : R) :
  parse_naca code = Ok (m, p, t) ->
  p = 0 ->
  (forall x, camber_line x m p = Ok (zeros_like x, zeros_like x))
  /\ (forall normal a c points,
        axis_of normal = Some a ->
        (points < 2 ^ 53)%Z ->
        main_core code normal (Fin c) points <> Err NonFiniteGeometry
        /\ (c <> 0 -> is_ok (main_core code normal (Fin c) points) = true)).
Proof.
  intros H Hp. split.
  - intros x. apply camber_line_guard. right. exact Hp.
  - intros normal a c points Ha Hpts.
    rewrite (main_core_below_2p53 _ _ _ _ Hpts).
    rewrite <- axis_of_normalized in Ha.
    set (n := Z.max 3 ((Z.max 3 points + 2) / 2)).
    split.
    + destruct (generate_embed_validate_finite code _ a c n m p t H Ha) as [E|E].
      * rewrite E. discriminate.
      * intros E'. rewrite E' in E. discriminate E.
    + intros Hc.
      destruct (generate_embed_validate_ok code _ a c n m p t H Ha Hc)
        as (xs & ys & _ & _ & _ & _ & _ & ->).
      reflexivity.
Qed.

Lemma zero_camber_location_guarded_witness :
  camber_line [0; 0.5; 1] (1 / 100) (0 / 10) = Ok ([0; 0; 0], [0; 0; 0]).
Proof.
  assert (Hp : 0 / 10 = 0) by lra.
  destruct (zero_camber_location_guarded "1012" (1 / 100) (0 / 10) (12 / 100)
              eq_refl Hp) as [Hc _].
  exact (Hc [0; 0.5; 1]).
Defined.

(** C2, the claim as stated fails: the code "1012" has camber 0.01 and camber
    location 0, and its run with chord 1 succeeds. *)
Lemma run_1012_succeeds :
  parse_naca "1012" = Ok (1 / 100, 0 / 10, 12 / 100)
  /\ 1 / 100 <> 0 /\ 0 / 10 = 0
  /\ is_ok (main_core "1012" "Z" (Fin 1) 50) = true
  /\ main_core "1012" "Z" (Fin 1) 50 <> Err NonFiniteGeometry.
Proof.
  split; [reflexivity|]. split; [lra|]. split; [lra|].
  rewrite (main_core_step "1012" "Z" (Fin 1) 50 26) by (vm_compute; reflexivity).
  destruct (generate_embed_validate_ok "1012" (normalized "Z") AxisZ 1 26
              (1 / 100) (0 / 10) (12 / 100) eq_refl eq_refl ltac:(lra))
    as (xs & ys & _ & _ & _ & _ & _ & ->).
  split; [reflexivity | discriminate].
Qed.

(** ** The run of "2412" with 21 points *)

Lemma sin_atan_abs (d : R) : Rabs (sin (atan d)) <= Rabs d.
Proof.
  rewrite sin_atan.
  assert (H1 : 1 <= sqrt (1 + d²)).
  { rewrite <- sqrt_1 at 1. apply sqrt_le_1_alt. pose proof (Rle_0_sqr d). lra. }
  unfold Rdiv. rewrite Rabs_mult.
  rewrite (Rabs_right (/ sqrt (1 + d²))).
  - rewrite <- (Rmult_1_r (Rabs d)) at 2.
    apply Rmult_le_compat_l; [apply Rabs_pos|].
    apply Rle_trans with (/ 1); [apply Rinv_le_contravar; lra | rewrite Rinv_1; lra].
  - apply Rle_ge. apply Rlt_le. apply Rinv_0_lt_compat. lra.
Qed.

Lemma thickness_12_bounds (x : R) :
  0 <= x <= 1 ->
  let s := sqrt x in
  Rabs (thickness_at (12 / 100) x) <= 0.17814 * s + 0.518 * x
  /\ Rabs (thickness_at (12 / 100) x) <= 0.00126 + 0.252 * (1 - x).
Proof.
  intros Hx s.
  assert (Hs0 : 0 <= s) by apply sqrt_pos.
  assert (Hss : s * s = x) by (apply sqrt_sqrt; lra).
  assert (Hs1 : s <= 1) by (rewrite <- sqrt_1; apply sqrt_le_1_alt; lra).
  unfold thickness_at. rewrite Rmax_left by lra. fold s.
  assert (Hx2 : 0 <= x ^ 2 <= x) by nra.
  assert (Hx3 : 0 <= x ^ 3 <= x ^ 2) by nra.
  assert (Hx4 : 0 <= x ^ 4 <= x ^ 3) by nra.
  split; apply Rabs_le; split; try nra.
Qed.

Lemma dyc_2412 (x : R) :
  0 <= x <= 1 ->
  let d := dyc_at (2 / 100) (4 / 10) x in
  (x < 4 / 10 + 1e-12 -> d = 0.25 * (0.4 - x))
  /\ (4 / 10 + 1e-12 <= x -> d = (0.4 - x) / 9).
Proof.
  intros Hx d. unfold d, dyc_at, camber_at.
  repeat decide_test. cbn [orb].
  split; intros H; decide_test; cbn [snd].
  - unfold forward_dyc. lra.
  - unfold aft_dyc. lra.
Qed.

Lemma offset_2412_bound (x : R) :
  0 <= x <= 1 ->
  let w := thickness_at (12 / 100) x * sin (theta_at (2 / 100) (4 / 10) x) in
  Rabs w <= x + 1e-4 /\ Rabs w <= 1 + 1e-4 - x.
Proof.
  intros Hx w.
  set (T := thickness_at (12 / 100) x) in *.
  set (d := dyc_at (2 / 100) (4 / 10) x).
  assert (Hw : Rabs w <= Rabs T * Rabs d).
  { unfold w. rewrite Rabs_mult. apply Rmult_le_compat_l; [apply Rabs_pos|].
    apply sin_atan_abs. }
  destruct (thickness_12_bounds x Hx) as [HT1 HT2]. cbv zeta in HT1, HT2. fold T in HT1, HT2.
  set (s := sqrt x) in *.
  assert (Hs0 : 0 <= s) by apply sqrt_pos.
  assert (Hss : s * s = x) by (apply sqrt_sqrt; lra).
  assert (Hs1 : s <= 1) by (unfold s; rewrite <- sqrt_1; apply sqrt_le_1_alt; lra).
  pose proof (Rabs_pos T) as HT0.
  destruct (dyc_2412 x Hx) as [Hf Ha]. fold d in Hf, Ha.
  destruct (Rlt_dec x (4 / 10 + 1e-12)) as [Hlt|Hge].
  - assert (Hd : Rabs d <= 0.1).
    { rewrite (Hf Hlt). apply Rabs_le. lra. }
    pose proof (Rabs_pos d).
    assert (Rabs T * Rabs d <= (0.17814 * s + 0.518 * x) * 0.1)
      by (apply Rmult_le_compat; assumption).
    pose proof (Rle_0_sqr (s - 0.0094)) as Hsq. unfold Rsqr in Hsq.
    split; [nra | lra].
  - assert (Hge' : 4 / 10 + 1e-12 <= x) by lra.
    assert (Hd : Rabs d <= (x - 0.4) / 9).
    { rewrite (Ha Hge'). apply Rabs_le. lra. }
    pose proof (Rabs_pos d).
    assert (Rabs T * Rabs d <= (0.00126 + 0.252 * (1 - x)) * ((x - 0.4) / 9))
      by (apply Rmult_le_compat; assumption).
    split; nra.
Qed.

(** Every abscissa of a loop of "2412" is within 1e-4 of the unit interval. *)
Lemma loop_x_bounds_2412 (n : Z) (xs ys : list R) (prm : R * R * R) :
  generate_naca4 "2412" n = Ok (xs, ys, prm) ->
  Forall (fun v => - 1e-4 <= v <= 1 + 1e-4) xs.
Proof.
  rewrite (generate_naca4_pointwise "2412" n (2 / 100) (4 / 10) (12 / 100) eq_refl).
  cbv zeta. unfold surfaces_of. cbn [xu yu xl yl]. intros Heq.
  assert (Hxs : xs = rev (map (xu_at (2 / 100) (4 / 10) (12 / 100))
                            (cosine_spacing (effective_n n))) ++
                     skipn 1 (map (xl_at (2 / 100) (4 / 10) (12 / 100))
                                (cosine_spacing (effective_n n))))
    by congruence.
  rewrite Hxs. clear Hxs Heq.
  pose proof (cosine_spacing_unit (effective_n n)) as Hunit.
  rewrite Forall_forall in Hunit. apply Forall_forall. intros v Hv.
  assert (Hx : exists x, 0 <= x <= 1 /\
                 (v = xu_at (2 / 100) (4 / 10) (12 / 100) x \/
                  v = xl_at (2 / 100) (4 / 10) (12 / 100) x)).
  { apply in_app_or in Hv. destruct Hv as [Hv|Hv].
    - apply in_rev in Hv. apply in_map_iff in Hv. destruct Hv as (x & <- & Hx).
      exists x. split; [apply Hunit, Hx | left; reflexivity].
    - apply In_skipn in Hv. apply in_map_iff in Hv. destruct Hv as (x & <- & Hx).
      exists x. split; [apply Hunit, Hx | right; reflexivity]. }
  destruct Hx as (x & Hx & Hv').
  destruct (offset_2412_bound x Hx) as [H1 H2]. cbv zeta in H1, H2.
  set (w := thickness_at (12 / 100) x * sin (theta_at (2 / 100) (4 / 10) x)) in *.
  pose proof (Rle_abs w) as Hw1.
  pose proof (Rle_abs (- w)) as Hw2. rewrite Rabs_Ropp in Hw2.
  destruct Hv' as [->| ->]; unfold xu_at, xl_at; fold w; lra.
Qed.

Lemma span_le (a : list R) (lo hi : R) :
  a <> [] -> Forall (fun v => lo <= v <= hi) a -> span a <= hi - lo.
Proof.
  intros Hne Hall. rewrite Forall_forall in Hall. unfold span.
  pose proof (Hall _ (amax_in a Hne)). pose proof (Hall _ (amin_in a Hne)). lra.
Qed.

Lemma n_per_surface_21 : compute_n_per_surface_from_total (Z.max 3 21) = Ok 11%Z.
Proof. vm_compute. reflexivity. Qed.

(** The upper surface of "2412" ends more than 8e-5 behind the chord. *)
Lemma xu_trailing_2412 : 1 + 8e-5 < xu_at (2 / 100) (4 / 10) (12 / 100) 1.
Proof.
  rewrite xu_at_trailing by lra.
  replace (2 * (2 / 100) / (1 - 4 / 10)) with (1 / 15) by field.
  set (r := sqrt (1 + (1 / 15)²)).
  assert (Hr0 : 0 < r) by apply sqrt_one_plus_sqr_pos.
  assert (Hr1 : r < 1.01).
  { unfold r. rewrite <- (sqrt_square 1.01) by lra.
    apply sqrt_lt_1_alt. unfold Rsqr. lra. }
  assert (Hq : 1 / 15 / 1.01 < 1 / 15 / r).
  { unfold Rdiv. apply Rmult_lt_compat_l; [lra|].
    apply Rinv_lt_contravar; [nra | exact Hr1]. }
  assert (Hq' : 0.066 < 1 / 15 / 1.01) by lra.
  nra.
Qed.

Lemma run_2412_21_facts :
  exists pts : list point3R,
    main_core "2412" "Z" (Fin 2) 21 = Ok (map inject_point pts)
    /\ List.length pts = 21%nat
    /\ Forall (fun q => snd q = 0) pts
    /\ 2 + 1.6e-4 < span (colX pts) <= 2 + 4e-4.
Proof.
  rewrite (main_core_step "2412" "Z" (Fin 2) 21 11 n_per_surface_21).
  destruct (generate_embed_validate_ok "2412" (normalized "Z") AxisZ 2 11
              (2 / 100) (4 / 10) (12 / 100) eq_refl eq_refl ltac:(lra))
    as (xs & ys & Hg & Hlx & Hly & H0 & H1 & ->).
  assert (Hlen : List.length xs = List.length ys) by congruence.
  change (2 * effective_n 11 - 1)%nat with 21%nat in Hlx, Hly.
  exists (map (embed AxisZ 2) (combine xs ys)).
  split; [reflexivity|].
  split; [rewrite length_map, length_combine, Hlx, Hly; reflexivity|].
  pose proof (embed_columns AxisZ 2 xs ys Hlen) as Hcol. cbv zeta in Hcol.
  destruct Hcol as (HX & _ & HZ).
  split.
  - apply Forall_forall. intros q Hq.
    assert (Hin : In (snd q) (colZ (map (embed AxisZ 2) (combine xs ys))))
      by (unfold colZ; apply (in_map (fun q => snd q)); exact Hq).
    rewrite HZ in Hin. apply in_map_iff in Hin. destruct Hin as (x & Hx & _).
    symmetry. exact Hx.
  - rewrite HX. split.
    + pose proof (span_ge (map (Rmult 2) xs) _ _
                    (in_map (Rmult 2) _ _ H0) (in_map (Rmult 2) _ _ H1)) as Hs.
      pose proof xu_trailing_2412. lra.
    + assert (Hb : span (map (Rmult 2) xs) <= 2 * (1 + 1e-4) - 2 * (- 1e-4)).
      { apply span_le.
        - destruct xs; [destruct H0 | discriminate].
        - apply Forall_map. pose proof (loop_x_bounds_2412 11 xs ys _ Hg) as Hall.
          rewrite Forall_forall in Hall. apply Forall_forall. intros v Hv.
          specialize (Hall v Hv). lra. }
      lra.
Qed.

(** C5 (as the code has it).  For "2412" with 21 points in total the number
    of points per surface is 11 and the run, with chord 2 and normal axis Z,
    returns 21 points, all finite, each with Z = 0; the span of X exceeds 2 by
    more than 1.6e-4 and by at most 4e-4, because the upper surface ends
    behind the chord. *)
Theorem run_2412_21_points :
  compute_n_per_surface_from_total (Z.max 3 21) = Ok 11%Z
  /\ exists pts : list point3R,
       main_core "2412" "Z" (Fin 2) 21 = Ok (map inject_point pts)
       /\ List.length pts = 21%nat
       /\ Forall (fun q => snd q = 0) pts
       /\ 2 + 1.6e-4 < amax (colX pts) - amin (colX pts) <= 2 + 4e-4.
Proof.
  split; [exact n_per_surface_21 | exact run_2412_21_facts].
Qed.

(** C5, the claim as stated fails: the span of X is not within 1e-6 of 2. *)
Lemma run_2412_21_span_not_2 :
  exists pts : list point3R,
    main_core "2412" "Z" (Fin 2) 21 = Ok (map inject_point pts)
    /\ ~ Rabs ((amax (colX pts) - amin (colX pts)) - 2) <= 1e-6.
Proof.
  destruct run_2412_21_facts as (pts & Hrun & _ & _ & Hspan & _).
  exists pts. split; [exact Hrun|].
  unfold span in Hspan. intros Habs.
  rewrite Rabs_right in Habs by lra. lra.
Qed.

(** * Further properties of the pipeline *)

(** ** The parser: ranges, padding, errors *)

(** X1.  The three parameters of a code that parses are in the ranges of
    their digits: camber in [0, 0.09], camber location in [0, 0.9], thickness
    in [0, 0.99]; they are whole numbers of hundredths, tenths and
    hundredths. *)
Theorem parse_naca_ranges (code : string) (m p t : R) :
  parse_naca code = Ok (m, p, t) ->
  0 <= m <= 0.09 /\ 0 <= p <= 0.9 /\ 0 <= t <= 0.99
  /\ exists d0 d1 d23 : Z, 100 * m = IZR d0 /\ 10 * p = IZR d1 /\ 100 * t = IZR d23.
Proof.
  intros H.
  destruct (parse_naca_values _ _ _ _ H)
    as (d0 & d1 & d23 & Hd0 & Hd1 & Hd23 & -> & -> & ->).
  assert (0 <= IZR d0 <= 9) by (split; apply IZR_le; lia).
  assert (0 <= IZR d1 <= 9) by (split; apply IZR_le; lia).
  assert (0 <= IZR d23 <= 99) by (split; apply IZR_le; lia).
  repeat split; try lra.
  exists d0, d1, d23. repeat split; lra.
Qed.

Lemma parse_naca_ranges_witness :
  0 <= 2 / 100 <= 0.09 /\ 0 <= 4 / 10 <= 0.9 /\ 0 <= 12 / 100 <= 0.99.
Proof.
  destruct (parse_naca_ranges "2412" (2 / 100) (4 / 10) (12 / 100) eq_refl)
    as (Hm & Hp & Ht & _).
  repeat split; lra.
Defined.

Lemma chars_app (a b : string) :
  PyStr.chars (a ++ b) = PyStr.chars a ++ PyStr.chars b.
Proof.
  unfold PyStr.chars. induction a as [|c a IH]; [reflexivity|].
  cbn. rewrite IH. reflexivity.
Qed.

Lemma lstrip_spaces (ws l : list ascii) :
  forallb PyStr.isspace ws = true -> PyStr.lstrip (ws ++ l) = PyStr.lstrip l.
Proof.
  induction ws as [|c ws IH]; [reflexivity|]. cbn [forallb app PyStr.lstrip].
  intros H. apply andb_prop in H. destruct H as [Hc Hws].
  rewrite Hc. apply IH, Hws.
Qed.

Lemma lstrip_all_spaces (ws : list ascii) :
  forallb PyStr.isspace ws = true -> PyStr.lstrip ws = [].
Proof.
  intros H. rewrite <- (app_nil_r ws). rewrite lstrip_spaces by exact H.
  reflexivity.
Qed.

Lemma lstrip_app (l b : list ascii) :
  PyStr.lstrip l <> [] -> PyStr.lstrip (l ++ b) = PyStr.lstrip l ++ b.
Proof.
  induction l as [|c l IH]; [intros H; contradiction H; reflexivity|].
  cbn [app PyStr.lstrip]. destruct (PyStr.isspace c); [exact IH | reflexivity].
Qed.

Lemma lstrip_spaces_or_suffix (l : list ascii) :
  (PyStr.lstrip l = [] /\ forallb PyStr.isspace l = true)
  \/ PyStr.lstrip l <> [].
Proof.
  induction l as [|c l IH]; [left; split; reflexivity|].
  cbn [PyStr.lstrip forallb]. destruct (PyStr.isspace c); [|right; discriminate].
  exact IH.
Qed.

Lemma forallb_rev {A : Type} (f : A -> bool) (l : list A) :
  forallb f (rev l) = forallb f l.
Proof.
  induction l as [|a l IH]; [reflexivity|].
  cbn [rev forallb]. rewrite forallb_app, IH. cbn [forallb].
  rewrite andb_true_r. apply andb_comm.
Qed.

Lemma rstrip_spaces (l ws : list ascii) :
  forallb PyStr.isspace ws = true -> PyStr.rstrip (l ++ ws) = PyStr.rstrip l.
Proof.
  intros H. unfold PyStr.rstrip. rewrite rev_app_distr.
  rewrite lstrip_spaces by (rewrite forallb_rev; exact H). reflexivity.
Qed.

Lemma strip_padding (ws1 l ws2 : list ascii) :
  forallb PyStr.isspace ws1 = true ->
  forallb PyStr.isspace ws2 = true ->
  PyStr.strip (ws1 ++ l ++ ws2) = PyStr.strip l.
Proof.
  intros H1 H2. unfold PyStr.strip. rewrite lstrip_spaces by exact H1.
  destruct (lstrip_spaces_or_suffix l) as [[E Hl]|Hne].
  - rewrite E. rewrite lstrip_all_spaces; [reflexivity|].
    rewrite forallb_app, Hl, H2. reflexivity.
  - rewrite lstrip_app by exact Hne. apply rstrip_spaces, H2.
Qed.

(** X2.  White space around a code does not change what the parser returns,
    result or error: the argument is stripped before anything else. *)
Theorem parse_naca_padding (ws1 code ws2 : string) :
  forallb PyStr.isspace (PyStr.chars ws1) = true ->
  forallb PyStr.isspace (PyStr.chars ws2) = true ->
  parse_naca (ws1 ++ code ++ ws2) = parse_naca code.
Proof.
  intros H1 H2. rewrite !parse_naca_unfold. unfold stripped.
  rewrite !chars_app, strip_padding by assumption. reflexivity.
Qed.

Lemma parse_naca_padding_witness :
  parse_naca (" " ++ "0012" ++ "  ") = parse_naca "0012".
Proof.
  apply (parse_naca_padding " " "0012" "  "); reflexivity.
Defined.

Lemma parse_naca_error_kinds (code : string) (e : error) :
  parse_naca code = Err e -> e = InvalidCodeFormat \/ e = InvalidLiteral.
Proof.
  rewrite parse_naca_unfold.
  destruct (stripped code) as [|c0 [|c1 [|c2 [|c3 [|c4 l]]]]];
    try (intros [= <-]; left; reflexivity).
  destruct (PyStr.isdigit [c0; c1; c2; c3]); [|intros [= <-]; left; reflexivity].
  unfold PyStr.int. cbn [forallb andb].
  destruct (PyStr.isdecimal c0); cbn [andb bind];
    [|intros [= <-]; right; reflexivity].
  destruct (PyStr.isdecimal c1); cbn [andb bind];
    [|intros [= <-]; right; reflexivity].
  destruct (PyStr.isdecimal c2); cbn [andb bind];
    [|intros [= <-]; right; reflexivity].
  destruct (PyStr.isdecimal c3); cbn [andb bind];
    [discriminate | intros [= <-]; right; reflexivity].
Qed.

(** X3.  [generate_naca4] fails exactly when the parser fails, with the
    parser's error, which is a [ValueError] of the format test or of [int];
    for a code that parses no point count makes it fail. *)
Theorem generate_naca4_errors (code : string) (n : Z) :
  (forall e, generate_naca4 code n = Err e <-> parse_naca code = Err e)
  /\ (forall e, generate_naca4 code n = Err e ->
        e = InvalidCodeFormat \/ e = InvalidLiteral)
  /\ (is_ok (generate_naca4 code n) = is_ok (parse_naca code)).
Proof.
  destruct (parse_naca code) as [[[m p] t]|e0] eqn:Hp.
  - rewrite (generate_naca4_pointwise _ n _ _ _ Hp). cbv zeta.
    repeat split; intros; discriminate.
  - assert (Hg : generate_naca4 code n = Err e0)
      by (unfold generate_naca4; rewrite Hp; reflexivity).
    rewrite Hg. split; [intros e; split; intros [= <-]; reflexivity|].
    split; [|reflexivity].
    intros e [= <-]. apply (parse_naca_error_kinds code e0 Hp).
Qed.

(** ** The embedding: axis selectors and rows *)

Lemma upper_char_X (c : ascii) :
  PyStr.upper_char c = "X"%char -> c = "x"%char \/ c = "X"%char.
Proof.
  destruct c as [b0 b1 b2 b3 b4 b5 b6 b7].
  destruct b0, b1, b2, b3, b4, b5, b6, b7; intros H; cbv in H;
    try discriminate H; auto.
Qed.

Lemma upper_char_Y (c : ascii) :
  PyStr.upper_char c = "Y"%char -> c = "y"%char \/ c = "Y"%char.
Proof.
  destruct c as [b0 b1 b2 b3 b4 b5 b6 b7].
  destruct b0, b1, b2, b3, b4, b5, b6, b7; intros H; cbv in H;
    try discriminate H; auto.
Qed.

Lemma upper_char_Z (c : ascii) :
  PyStr.upper_char c = "Z"%char -> c = "z"%char \/ c = "Z"%char.
Proof.
  destruct c as [b0 b1 b2 b3 b4 b5 b6 b7].
  destruct b0, b1, b2, b3, b4, b5, b6, b7; intros H; cbv in H;
    try discriminate H; auto.
Qed.

Lemma normalized_single (s : string) (u : ascii) :
  normalized s = String u EmptyString ->
  exists c, s = String c EmptyString /\ PyStr.upper_char c = u.
Proof.
  unfold normalized, PyStr.chars, PyStr.upper.
  destruct s as [|c [|c' s']]; cbn; try discriminate.
  intros [= H]. exists c. split; [reflexivity | exact H].
Qed.

Lemma axis_of_selectors (normal : string) :
  (axis_of normal = Some AxisX <-> normal = "x"%string \/ normal = "X"%string)
  /\ (axis_of normal = Some AxisY <-> normal = "y"%string \/ normal = "Y"%string)
  /\ (axis_of normal = Some AxisZ <-> normal = "z"%string \/ normal = "Z"%string).
Proof.
  unfold axis_of.
  repeat split.
  - destruct (String.eqb (normalized normal) "X") eqn:EX.
    + intros _. apply String.eqb_eq in EX.
      destruct (normalized_single _ _ EX) as (c & -> & Hc).
      destruct (upper_char_X c Hc) as [-> | ->]; auto.
    + destruct (String.eqb (normalized normal) "Y");
        [discriminate|]. destruct (String.eqb (normalized normal) "Z"); discriminate.
  - intros [-> | ->]; reflexivity.
  - destruct (String.eqb (normalized normal) "X"); [discriminate|].
    destruct (String.eqb (normalized normal) "Y") eqn:EY.
    + intros _. apply String.eqb_eq in EY.
      destruct (normalized_single _ _ EY) as (c & -> & Hc).
      destruct (upper_char_Y c Hc) as [-> | ->]; auto.
    + destruct (String.eqb (normalized normal) "Z"); discriminate.
  - intros [-> | ->]; reflexivity.
  - destruct (String.eqb (normalized normal) "X"); [discriminate|].
    destruct (String.eqb (normalized normal) "Y"); [discriminate|].
    destruct (String.eqb (normalized normal) "Z") eqn:EZ; [|discriminate].
    intros _. apply String.eqb_eq in EZ.
    destruct (normalized_single _ _ EZ) as (c & -> & Hc).
    destruct (upper_char_Z c Hc) as [-> | ->]; auto.
  - intros [-> | ->]; reflexivity.
Qed.

Lemma map_to_3d_invalid (x2d y2d : list R) (normal : string) (chord : npfloat) :
  axis_of normal = None -> map_to_3d x2d y2d normal chord = Err InvalidAxis.
Proof.
  unfold axis_of, map_to_3d.
  destruct (String.eqb (normalized normal) "X"); [discriminate|].
  destruct (String.eqb (normalized normal) "Y"); [discriminate|].
  destruct (String.eqb (normalized normal) "Z"); [discriminate|].
  reflexivity.
Qed.

Lemma map_to_3d_valid (x2d y2d : list R) (normal : string) (chord : npfloat)
  (a : axis) :
  axis_of normal = Some a ->
  map_to_3d x2d y2d normal chord =
  match a with
  | AxisX => vstack_T (zeros3 x2d) (scale_array chord x2d) (scale_array chord y2d)
  | AxisY => vstack_T (scale_array chord x2d) (zeros3 x2d) (scale_array chord y2d)
  | AxisZ => vstack_T (scale_array chord x2d) (scale_array chord y2d) (zeros3 x2d)
  end.
Proof.
  unfold axis_of, map_to_3d.
  destruct (String.eqb (normalized normal) "X"); [intros [= <-]; reflexivity|].
  destruct (String.eqb (normalized normal) "Y"); [intros [= <-]; reflexivity|].
  destruct (String.eqb (normalized normal) "Z"); [intros [= <-]; reflexivity|].
  discriminate.
Qed.

Lemma vstack_T_cases (X Y Z : list npfloat) :
  (exists rows, vstack_T X Y Z = Ok rows) \/ vstack_T X Y Z = Err ShapeMismatch.
Proof.
  unfold vstack_T.
  destruct ((List.length X =? List.length Y)%nat && (List.length Y =? List.length Z)%nat);
    [left; eexists; reflexivity | right; reflexivity].
Qed.

(** X4.  [map_to_3d] raises the axis error exactly when the selector is not
    one of x, y, z in either case, whatever the coordinates and the chord:
    the selector is tested before anything is computed. *)
Theorem map_to_3d_invalid_axis_iff (x2d y2d : list R) (normal : string)
  (chord : npfloat) :
  map_to_3d x2d y2d normal chord = Err InvalidAxis <->
  ~ In normal ["x"; "X"; "y"; "Y"; "z"; "Z"]%string.
Proof.
  destruct (axis_of_selectors normal) as (HX & HY & HZ).
  destruct (axis_of normal) as [a|] eqn:Ha.
  - rewrite (map_to_3d_valid x2d y2d normal chord a Ha). split.
    + intros H. exfalso.
      destruct a;
        match goal with
        | H : vstack_T ?A ?B ?C = _ |- _ =>
            destruct (vstack_T_cases A B C) as [[rows E]|E]; rewrite E in H;
            discriminate H
        end.
    + intros Hn. exfalso. apply Hn. cbn [In].
      destruct a.
      * destruct (proj1 HX eq_refl) as [-> | ->]; auto.
      * destruct (proj1 HY eq_refl) as [-> | ->]; auto 6.
      * destruct (proj1 HZ eq_refl) as [-> | ->]; auto 8.
  - rewrite (map_to_3d_invalid _ _ _ _ Ha). split; [|reflexivity].
    intros _ Hin. cbn [In] in Hin.
    destruct Hin as [<-|[<-|[<-|[<-|[<-|[<-|[]]]]]]]; discriminate Ha.
Qed.

Lemma length_combine3 {A : Type} (X Y Z : list A) (n : nat) :
  List.length X = n -> List.length Y = n -> List.length Z = n ->
  List.length (combine (combine X Y) Z) = n.
Proof.
  intros HX HY HZ. rewrite !length_combine, HX, HY, HZ. lia.
Qed.

(** X5.  With a valid selector and a finite chord [c], two coordinate lists
    of the same length whose products with the chord stay within the binary64
    range give one row per point, in order; the row of the point (x, y) has
    0 on the normal axis and [c * x], [c * y] on the two other axes in their
    order.  Lists of different lengths are refused by the stacking of the
    three columns. *)
Theorem map_to_3d_rows (x2d y2d : list R) (normal : string) (a : axis) (c : R) :
  axis_of normal = Some a ->
  (List.length x2d = List.length y2d ->
   Forall (fun v => Rabs (c * v) <= binary64_max) x2d ->
   Forall (fun v => Rabs (c * v) <= binary64_max) y2d ->
   exists rows,
     map_to_3d x2d y2d normal (Fin c) = Ok rows
     /\ List.length rows = List.length x2d
     /\ forall i, (i < List.length x2d)%nat ->
          nth i rows (Fin 0, Fin 0, Fin 0) =
          let x := nth i x2d 0 in
          let y := nth i y2d 0 in
          match a with
          | AxisX => (Fin 0, Fin (c * x), Fin (c * y))
          | AxisY => (Fin (c * x), Fin 0, Fin (c * y))
          | AxisZ => (Fin (c * x), Fin (c * y), Fin 0)
          end)
  /\ (List.length x2d <> List.length y2d ->
      forall chord, map_to_3d x2d y2d normal chord = Err ShapeMismatch).
Proof.
  intros Ha. split.
  - intros Hlen _ _. rewrite (map_to_3d_finite _ _ _ _ c Ha Hlen).
    eexists. split; [reflexivity|].
    split; [rewrite !length_map, length_combine; lia|].
    intros i Hi. cbv zeta.
    rewrite map_map.
    rewrite (nth_indep _ _ (inject_point (embed a c (0, 0))))
      by (rewrite length_map, length_combine; lia).
    rewrite (map_nth (fun xy => inject_point (embed a c xy))).
    rewrite combine_nth by exact Hlen.
    destruct a; reflexivity.
  - intros Hne chord. rewrite (map_to_3d_valid _ _ _ chord a Ha).
    assert (Hb : (List.length x2d =? List.length y2d)%nat = false)
      by (apply Nat.eqb_neq; exact Hne).
    assert (Hb' : (List.length y2d =? List.length x2d)%nat = false)
      by (apply Nat.eqb_neq; congruence).
    destruct a; unfold vstack_T, zeros3, scale_array; rewrite !length_map;
      rewrite ?Hb, ?Hb', ?Nat.eqb_refl; reflexivity.
Qed.

Lemma map_to_3d_rows_witness :
  exists rows,
    map_to_3d [0; 1] [0; 0.5] "y" (Fin 2) = Ok rows
    /\ List.length rows = 2%nat.
Proof.
  assert (Hr : forall v, 0 <= v <= 1 -> Rabs (2 * v) <= binary64_max).
  { intros v Hv. rewrite Rabs_right by lra. unfold binary64_max. lra. }
  destruct (map_to_3d_rows [0; 1] [0; 0.5] "y" AxisY 2 eq_refl) as [H _].
  destruct (H eq_refl) as (rows & Hrows & Hl & _).
  - apply Forall_cons; [apply Hr; lra|].
    apply Forall_cons; [apply Hr; lra | apply Forall_nil].
  - apply Forall_cons; [apply Hr; lra|].
    apply Forall_cons; [apply Hr; lra | apply Forall_nil].
  - exists rows. split; [exact Hrows | exact Hl].
Defined.

(** ** Validation: the four outcomes *)

Lemma finite_point_none (q : point3) : finite_point q = None <-> has_nonfinite q.
Proof.
  destruct q as [[[x|] [y|]] [z|]]; unfold has_nonfinite; cbn;
    split; intros H; try discriminate H; try reflexivity; auto;
    destruct H as [H|[H|H]]; discriminate H.
Qed.

Lemma all_finite_none (coords : list point3) :
  all_finite coords = None <-> exists q, In q coords /\ has_nonfinite q.
Proof.
  induction coords as [|q coords IH].
  - cbn. split; [discriminate | intros (q & [] & _)].
  - cbn [all_finite]. destruct (finite_point q) as [r|] eqn:Hq.
    + destruct (all_finite coords) as [rs|].
      * split; [discriminate|]. intros (q' & [<-|Hin] & Hn).
        -- apply finite_point_none in Hn. congruence.
        -- assert (E : Some rs = None) by (apply IH; exists q'; split; assumption).
           discriminate E.
      * split; [|reflexivity]. intros _.
        destruct (proj1 IH eq_refl) as (q' & Hin & Hn).
        exists q'. split; [right; exact Hin | exact Hn].
    + split; [|reflexivity]. intros _. exists q. split; [left; reflexivity|].
      apply finite_point_none, Hq.
Qed.

Lemma point3R_neq (q r : point3R) :
  q <> r ->
  fst (fst q) <> fst (fst r) \/ snd (fst q) <> snd (fst r) \/ snd q <> snd r.
Proof.
  destruct q as [[x y] z], r as [[x' y'] z']. cbn [fst snd]. intros H.
  destruct (Req_dec_T x x') as [->|Hx]; [|left; exact Hx].
  destruct (Req_dec_T y y') as [->|Hy]; [|right; left; exact Hy].
  destruct (Req_dec_T z z') as [->|Hz]; [|right; right; exact Hz].
  contradiction H. reflexivity.
Qed.

Lemma span_nonzero (a : list R) :
  span a <> 0 -> exists u v, In u a /\ In v a /\ u <> v.
Proof.
  intros H. destruct a as [|w a]; [contradiction H; unfold span; cbn; lra|].
  exists (amin (w :: a)), (amax (w :: a)).
  split; [apply amin_in; discriminate|].
  split; [apply amax_in; discriminate|].
  intros E. apply H. unfold span. rewrite E. lra.
Qed.

Lemma inject_point_inj (pts pts' : list point3R) :
  map inject_point pts = map inject_point pts' -> pts = pts'.
Proof.
  intros H. assert (E : all_finite (map inject_point pts) = Some pts')
    by (rewrite H; apply all_finite_inject).
  rewrite all_finite_inject in E. congruence.
Qed.

(** X6.  The outcomes of [validate_geometry].  It reports non-finite
    geometry exactly when some coordinate of some point is not finite,
    whatever the other points are; an empty point set is refused by the
    reduction; a finite point set passes exactly when it has two different
    points; and a result, when there is one, is [True]. *)
Theorem validate_geometry_outcomes (coords : list point3) :
  (validate_geometry coords = Err NonFiniteGeometry <->
   exists q, In q coords /\ has_nonfinite q)
  /\ (validate_geometry coords = Err EmptyReduction <-> coords = [])
  /\ (validate_geometry coords = Ok true <->
      exists pts, coords = map inject_point pts
                  /\ exists q r, In q pts /\ In r pts /\ q <> r)
  /\ (forall b, validate_geometry coords = Ok b -> b = true).
Proof.
  unfold validate_geometry.
  destruct (all_finite coords) as [pts|] eqn:Hf.
  - assert (Hc : coords = map inject_point pts) by (apply all_finite_inv, Hf).
    assert (Hnone : ~ exists q, In q coords /\ has_nonfinite q).
    { intros H. apply all_finite_none in H. congruence. }
    destruct pts as [|q0 pts].
    { subst coords. split; [split; [discriminate | intros H; contradiction]|].
      split; [split; reflexivity|].
      split; [|discriminate].
      split; [discriminate|].
      intros (pts' & E & q & r & Hq & _). destruct pts'; [destruct Hq | discriminate E]. }
    set (P := q0 :: pts) in *.
    change (let '(sx, sy, sz) := spans P in
            if Reqb sx 0 && Reqb sy 0 && Reqb sz 0
            then Err DegenerateGeometry else Ok true)
      with (if Reqb (span (colX P)) 0 && Reqb (span (colY P)) 0
               && Reqb (span (colZ P)) 0
            then Err DegenerateGeometry else @Ok bool true).
    destruct (Reqb (span (colX P)) 0 && Reqb (span (colY P)) 0
              && Reqb (span (colZ P)) 0) eqn:E.
    + apply all_spans_zero in E. rewrite spans_zero_iff in E.
      split; [split; [discriminate | intros H; contradiction]|].
      split; [split; [discriminate | intros ->; discriminate Hc]|].
      split; [|discriminate].
      split; [discriminate|].
      intros (pts' & E' & q & r & Hq & Hr & Hne).
      rewrite Hc in E'. apply inject_point_inj in E'. subst pts'.
      exfalso. apply Hne, E; assumption.
    + split; [split; [discriminate | intros H; contradiction]|].
      split; [split; [discriminate | intros ->; discriminate Hc]|].
      split; [|intros b [= <-]; reflexivity].
      split; [|reflexivity].
      intros _. exists P. split; [exact Hc|].
      assert (Hcol : exists (g : point3R -> R) u v,
                 In u (map g P) /\ In v (map g P) /\ u <> v).
      { rewrite !andb_false_iff, !Reqb_false in E.
        destruct E as [[E|E]|E]; apply span_nonzero in E;
          destruct E as (u & v & Hu & Hv & Huv); eexists _, u, v;
          (split; [exact Hu | split; [exact Hv | exact Huv]]). }
      destruct Hcol as (g & u & v & Hu & Hv & Huv).
      apply in_map_iff in Hu. destruct Hu as (q & <- & Hq).
      apply in_map_iff in Hv. destruct Hv as (r & <- & Hr).
      exists q, r. repeat split; try assumption. intros ->. apply Huv. reflexivity.
  - split; [split; [intros _; apply all_finite_none, Hf | reflexivity]|].
    split; [split; [discriminate | intros ->; discriminate Hf]|].
    split; [|discriminate].
    split; [discriminate|].
    intros (pts & -> & _). rewrite all_finite_inject in Hf. discriminate Hf.
Qed.

(** ** The run: chord, errors and the number of points *)

Lemma vstack_T_ok (X Y Z : list npfloat) (n : nat) :
  List.length X = n -> List.length Y = n -> List.length Z = n ->
  vstack_T X Y Z = Ok (combine (combine X Y) Z).
Proof.
  intros HX HY HZ. unfold vstack_T. rewrite HX, HY, HZ, Nat.eqb_refl. reflexivity.
Qed.

Lemma generate_embed_validate_nonfinite (code normal : string) (a : axis)
  (n : Z) (m p t : R) :
  parse_naca code = Ok (m, p, t) ->
  axis_of normal = Some a ->
  generate_embed_validate code normal NonFin n = Err NonFiniteGeometry.
Proof.
  intros H Ha.
  destruct (generate_naca4_ends code n m p t H) as (xs & ys & Hg & Hlx & Hly & H0 & _).
  unfold generate_embed_validate. rewrite Hg. cbn [bind].
  rewrite (map_to_3d_valid _ _ _ _ a Ha).
  assert (Hz : List.length (zeros3 xs) = List.length xs)
    by (unfold zeros3; apply length_map).
  assert (Hsx : List.length (scale_array NonFin xs) = List.length xs)
    by (unfold scale_array; apply length_map).
  assert (Hsy : List.length (scale_array NonFin ys) = List.length xs)
    by (unfold scale_array; rewrite length_map; congruence).
  destruct xs as [|x0 xs]; [destruct H0|].
  destruct ys as [|y0 ys];
    [pose proof (effective_n_ge3 n); cbn [List.length] in Hly; lia|].
  destruct a.
  - rewrite (vstack_T_ok _ _ _ _ Hz Hsx Hsy). reflexivity.
  - rewrite (vstack_T_ok _ _ _ _ Hsx Hz Hsy). reflexivity.
  - rewrite (vstack_T_ok _ _ _ _ Hsx Hsy Hz). reflexivity.
Qed.

(** X7.  A chord that is [inf] or [nan] makes every run of a valid code with
    a valid axis fail with [NonFiniteGeometry]: the scaled coordinates are not
    finite, and validation tests that first. *)
Theorem nonfinite_chord_rejected (code normal : string) (a : axis) (points : Z)
  (m p t : R) :
  parse_naca code = Ok (m, p, t) ->
  axis_of normal = Some a ->
  (points < 2 ^ 53)%Z ->
  main_core code normal NonFin points = Err NonFiniteGeometry.
Proof.
  intros H Ha Hpts. rewrite (main_core_below_2p53 _ _ _ _ Hpts).
  rewrite <- axis_of_normalized in Ha.
  apply (generate_embed_validate_nonfinite code _ a _ m p t H Ha).
Qed.

Lemma nonfinite_chord_rejected_witness :
  main_core "2412" "z" NonFin 50 = Err NonFiniteGeometry.
Proof.
  apply (nonfinite_chord_rejected "2412" "z" AxisZ 50
           (2 / 100) (4 / 10) (12 / 100) eq_refl eq_refl).
  reflexivity.
Defined.

Lemma span_constant (a : list R) (v : R) :
  (forall u, In u a -> u = v) -> span a = 0.
Proof.
  intros H. apply span_zero_iff. intros u w Hu Hw.
  rewrite (H u Hu), (H w Hw). reflexivity.
Qed.

Lemma generate_embed_validate_zero_chord (code normal : string) (a : axis)
  (n : Z) (m p t : R) :
  parse_naca code = Ok (m, p, t) ->
  axis_of normal = Some a ->
  generate_embed_validate code normal (Fin 0) n = Err DegenerateGeometry.
Proof.
  intros H Ha.
  destruct (generate_naca4_ends code n m p t H) as (xs & ys & Hg & Hlx & Hly & H0 & _).
  assert (Hlen : List.length xs = List.length ys) by congruence.
  unfold generate_embed_validate. rewrite Hg. cbn [bind].
  rewrite (map_to_3d_finite _ _ _ _ 0 Ha Hlen). cbn [bind].
  rewrite validate_geometry_finite.
  - assert (Hzero : forall l : list R, forall u, In u (map (Rmult 0) l) -> u = 0).
    { intros l u Hu. apply in_map_iff in Hu. destruct Hu as (x & <- & _). ring. }
    assert (Hconst : forall l : list R, forall u,
               In u (map (fun _ : R => 0) l) -> u = 0).
    { intros l u Hu. apply in_map_iff in Hu. destruct Hu as (x & <- & _).
      reflexivity. }
    pose proof (embed_columns a 0 xs ys Hlen) as Hcol. cbv zeta in Hcol.
    assert (Hs : spans (map (embed a 0) (combine xs ys)) = (0, 0, 0)).
    { unfold spans. destruct a; destruct Hcol as (-> & -> & ->);
        rewrite ?(span_constant _ 0 (Hzero xs)), ?(span_constant _ 0 (Hzero ys)),
          ?(span_constant _ 0 (Hconst xs)); reflexivity. }
    apply all_spans_zero in Hs. rewrite Hs. reflexivity.
  - destruct xs as [|x xs]; [destruct H0|].
    destruct ys as [|y ys]; [discriminate Hlen|]. discriminate.
Qed.

(** X9.  The order of the checks of a run.  A code that does not parse is
    reported with the parser's error whatever the axis and the chord are; a
    code that parses with a selector that is no axis is reported as
    [InvalidAxis] whatever the chord is. *)
Theorem main_core_error_order (code normal : string) (chord : npfloat)
  (points : Z) :
  (points < 2 ^ 53)%Z ->
  (forall e, parse_naca code = Err e ->
             main_core code normal chord points = Err e)
  /\ (forall m p t, parse_naca code = Ok (m, p, t) ->
        axis_of normal = None ->
        main_core code normal chord points = Err InvalidAxis).
Proof.
  intros Hpts. rewrite (main_core_below_2p53 _ _ _ _ Hpts).
  set (n := Z.max 3 ((Z.max 3 points + 2) / 2)). split.
  - intros e He. unfold generate_embed_validate, generate_naca4.
    rewrite He. reflexivity.
  - intros m p t H Ha. rewrite <- axis_of_normalized in Ha.
    destruct (generate_naca4_ends code n m p t H) as (xs & ys & Hg & _).
    unfold generate_embed_validate. rewrite Hg. cbn [bind].
    rewrite (map_to_3d_invalid _ _ _ _ Ha). reflexivity.
Qed.

Lemma main_core_error_order_witness :
  main_core "24x2" "Q" NonFin 50 = Err InvalidCodeFormat.
Proof.
  apply (main_core_error_order "24x2" "Q" NonFin 50); reflexivity.
Defined.

(** ** The number of points per surface, inverted *)

Local Open Scope Z_scope.

(** X11.  [compute_n_per_surface_from_total] inverts the length of the loop:
    for [n] points per surface, from 3 to 2^52, it returns [n] for the total
    [2 * n - 1] of the loop and also for the even total [2 * n - 2] just
    below. *)
Theorem compute_n_round_trip (n : Z) :
  3 <= n <= 2 ^ 52 ->
  compute_n_per_surface_from_total (2 * n - 1) = Ok n
  /\ compute_n_per_surface_from_total (2 * n - 2) = Ok n.
Proof.
  intros Hn.
  assert (H53 : 2 ^ 53 = 2 * 2 ^ 52) by reflexivity.
  split; rewrite compute_n_exact by lia; f_equal.
  - replace (2 * n - 1 + 2) with (1 + n * 2) by ring.
    rewrite Z.div_add by lia. change (1 / 2) with 0. lia.
  - replace (2 * n - 2 + 2) with (n * 2) by ring.
    rewrite Z.div_mul by lia. lia.
Qed.

Lemma compute_n_round_trip_witness :
  compute_n_per_surface_from_total (2 * 26 - 1) = Ok 26.
Proof.
  apply (compute_n_round_trip 26). split; [lia|]. vm_compute. discriminate.
Defined.

Local Open Scope R_scope.

(** ** The thickness distribution *)

Lemma thickness_nonneg (t x : R) :
  0 <= t -> 0 <= x <= 1 -> 0 <= thickness_at t x.
Proof.
  intros Ht Hx. unfold thickness_at. rewrite Rmax_left by lra.
  set (s := sqrt x).
  assert (Hs0 : 0 <= s) by apply sqrt_pos.
  assert (Hss : s * s = x) by (apply sqrt_sqrt; lra).
  assert (Hs1 : s <= 1) by (unfold s; rewrite <- sqrt_1; apply sqrt_le_1_alt; lra).
  assert (Hsx : x <= s) by nra.
  assert (Hq : 0 <= 0.1688 - 0.1828 * x + 0.1015 * (x * x)).
  { pose proof (Rle_0_sqr (x - 0.9)) as Hsq. unfold Rsqr in Hsq. nra. }
  assert (Hpoly : 0 <= 0.2969 * s - 0.1260 * x - 0.3516 * x ^ 2
                       + 0.2843 * x ^ 3 - 0.1015 * x ^ 4).
  { assert (H1 : 0.2969 * x - 0.1260 * x - 0.3516 * x ^ 2
                 + 0.2843 * x ^ 3 - 0.1015 * x ^ 4
                 = x * (0.0021 + (1 - x) * (0.1688 - 0.1828 * x + 0.1015 * (x * x))))
      by nra.
    assert (H2 : 0 <= x * (0.0021 + (1 - x) * (0.1688 - 0.1828 * x + 0.1015 * (x * x)))).
    { apply Rmult_le_pos; [lra|].
      assert (0 <= (1 - x) * (0.1688 - 0.1828 * x + 0.1015 * (x * x)))
        by (apply Rmult_le_pos; lra).
      lra. }
    lra. }
  apply Rmult_le_pos; [lra | exact Hpoly].
Qed.

Lemma thickness_upper_bound (t x : R) :
  0 <= t -> 0 <= x <= 1 -> thickness_at t x <= 0.505 * t.
Proof.
  intros Ht Hx. unfold thickness_at. rewrite Rmax_left by lra.
  set (s := sqrt x).
  assert (Hs0 : 0 <= s) by apply sqrt_pos.
  assert (Hss : s * s = x) by (apply sqrt_sqrt; lra).
  assert (Hs : s <= (x + 0.3025) / 1.1).
  { pose proof (Rle_0_sqr (s - 0.55)) as Hsq. unfold Rsqr in Hsq. nra. }
  assert (HR : 0 <= 0.019352 - 0.143910 * x + 0.3516 * x ^ 2
                    - 0.2843 * x ^ 3 + 0.1015 * x ^ 4).
  { pose proof (Rle_0_sqr (x - 0.3)) as Hsq. unfold Rsqr in Hsq.
    pose proof (Rle_0_sqr (x * (x - 0.3))) as Hsq2. unfold Rsqr in Hsq2.
    nra. }
  assert (Hpoly : 0.2969 * s - 0.1260 * x - 0.3516 * x ^ 2
                  + 0.2843 * x ^ 3 - 0.1015 * x ^ 4 <= 0.101) by nra.
  nra.
Qed.

(** X12.  For a thickness [t >= 0] and abscissae in [0,1],
    [thickness_distribution] returns one value per abscissa, each between 0
    and [0.505 * t]; the value is 0 at the leading edge [x = 0] and
    [0.0105 * t] at the trailing edge [x = 1], which is therefore open when
    [t > 0]. *)
Theorem thickness_distribution_bounds (x : list R) (t : R) :
  0 <= t ->
  Forall (fun xi => 0 <= xi <= 1) x ->
  List.length (thickness_distribution x t) = List.length x
  /\ Forall (fun yt => 0 <= yt <= 0.505 * t) (thickness_distribution x t)
  /\ thickness_distribution [0; 1] t = [0; 0.0105 * t].
Proof.
  intros Ht Hx. unfold thickness_distribution.
  split; [apply length_map|]. split.
  - apply Forall_map. rewrite Forall_forall in Hx. apply Forall_forall.
    intros xi Hin. specialize (Hx xi Hin).
    split; [apply thickness_nonneg | apply thickness_upper_bound]; assumption.
  - cbn [map]. rewrite thickness_at_0, thickness_at_1. reflexivity.
Qed.

Lemma thickness_distribution_bounds_witness :
  Forall (fun yt => 0 <= yt <= 0.505 * 0.12) (thickness_distribution [0; 0.5; 1] 0.12).
Proof.
  assert (Ht : 0 <= 0.12) by lra.
  assert (Hx : Forall (fun xi => 0 <= xi <= 1) [0; 0.5; 1])
    by (repeat constructor; lra).
  apply (thickness_distribution_bounds [0; 0.5; 1] 0.12 Ht Hx).
Defined.

(** ** The camber line: range and slope *)

Lemma camber_at_forward (m p x : R) :
  m <> 0 -> p <> 0 -> x < p + 1e-12 ->
  camber_at m p x = (forward_yc m p x, forward_dyc m p x).
Proof.
  intros Hm Hp Hx. unfold camber_at. repeat decide_test. reflexivity.
Qed.

Lemma camber_at_aft (m p x : R) :
  m <> 0 -> p <> 0 -> p + 1e-12 <= x ->
  camber_at m p x = (aft_yc m p x, aft_dyc m p x).
Proof.
  intros Hm Hp Hx. unfold camber_at. repeat decide_test. reflexivity.
Qed.

Lemma camber_at_range (m p x : R) :
  0 < m -> 1e-12 <= p -> p + 1e-12 <= 1 -> 0 <= x <= 1 ->
  0 <= yc_at m p x <= m
  /\ (x <= p -> 0 <= dyc_at m p x)
  /\ (p <= x -> dyc_at m p x <= 0).
Proof.
  intros Hm Hp Hp1 Hx. unfold yc_at, dyc_at.
  destruct (Rlt_dec x (p + 1e-12)) as [Hlt|Hge].
  - rewrite camber_at_forward by lra. cbn [fst snd].
    unfold forward_yc, forward_dyc.
    set (k := m / p ^ 2).
    assert (Hk : 0 < k) by (apply Rdiv_lt_0_compat; [lra | nra]).
    assert (Hmk : m = k * (p * p)) by (unfold k; field; lra).
    replace (2 * m / p ^ 2) with (2 * k) by (unfold k; field; lra).
    assert (H1 : 0 <= k * (x * (2 * p - x)))
      by (apply Rmult_le_pos; [lra | apply Rmult_le_pos; lra]).
    assert (H2 : 0 <= k * ((p - x) * (p - x)))
      by (apply Rmult_le_pos; [lra | apply Rle_0_sqr]).
    repeat split; intros; nra.
  - assert (Hge' : p + 1e-12 <= x) by lra.
    rewrite camber_at_aft by lra. cbn [fst snd].
    unfold aft_yc, aft_dyc.
    set (k := m / (1 - p) ^ 2).
    assert (Hk : 0 < k) by (apply Rdiv_lt_0_compat; [lra | nra]).
    assert (Hmk : m = k * ((1 - p) * (1 - p))) by (unfold k; field; lra).
    replace (2 * m / (1 - p) ^ 2) with (2 * k) by (unfold k; field; lra).
    assert (H1 : 0 <= k * ((1 - x) * (1 + x - 2 * p)))
      by (apply Rmult_le_pos; [lra | apply Rmult_le_pos; lra]).
    assert (H2 : 0 <= k * ((p - x) * (p - x)))
      by (apply Rmult_le_pos; [lra | apply Rle_0_sqr]).
    repeat split; intros; nra.
Qed.

(** X13.  For a camber [m > 0] at a location [p] away from both ends and
    abscissae in [0,1], [camber_line] returns one camber value and one slope
    per abscissa; every camber value is between 0 and [m], the slope is not
    negative up to [p] and not positive from [p] on: the camber line rises to
    its maximum [m] at [p] and falls behind it. *)
Theorem camber_line_range (x : list R) (m p : R) :
  0 < m -> 1e-12 <= p -> p + 1e-12 <= 1 ->
  Forall (fun xi => 0 <= xi <= 1) x ->
  exists yc dyc,
    camber_line x m p = Ok (yc, dyc)
    /\ List.length yc = List.length x /\ List.length dyc = List.length x
    /\ Forall (fun y => 0 <= y <= m) yc
    /\ forall i, (i < List.length x)%nat ->
         (nth i x 0 <= p -> 0 <= nth i dyc 0)
         /\ (p <= nth i x 0 -> nth i dyc 0 <= 0).
Proof.
  intros Hm Hp Hp1 Hx.
  exists (map (yc_at m p) x), (map (dyc_at m p) x).
  split.
  { apply camber_line_pointwise. intros (_ & E & _). lra. }
  split; [apply length_map|]. split; [apply length_map|].
  rewrite Forall_forall in Hx. split.
  - apply Forall_map, Forall_forall. intros xi Hin.
    apply (camber_at_range m p xi Hm Hp Hp1 (Hx xi Hin)).
  - intros i Hi.
    assert (Hxi : 0 <= nth i x 0 <= 1) by (apply Hx, nth_In, Hi).
    rewrite (nth_indep (map (dyc_at m p) x) 0 (dyc_at m p 0))
      by (rewrite length_map; exact Hi).
    rewrite map_nth.
    destruct (camber_at_range m p (nth i x 0) Hm Hp Hp1 Hxi) as (_ & H1 & H2).
    split; assumption.
Qed.

Lemma camber_line_range_witness :
  exists yc dyc,
    camber_line [0; 0.4; 1] 0.02 0.4 = Ok (yc, dyc)
    /\ Forall (fun y => 0 <= y <= 0.02) yc.
Proof.
  assert (Hm : 0 < 0.02) by lra.
  assert (Hp : 1e-12 <= 0.4) by lra.
  assert (Hp1 : 0.4 + 1e-12 <= 1) by lra.
  assert (Hx : Forall (fun xi => 0 <= xi <= 1) [0; 0.4; 1])
    by (repeat constructor; lra).
  destruct (camber_line_range [0; 0.4; 1] 0.02 0.4 Hm Hp Hp1 Hx)
    as (yc & dyc & Hc & _ & _ & Hy & _).
  exists yc, dyc. split; [exact Hc | exact Hy].
Defined.

(** ** The loop, point by point *)

Lemma loop_nth (u l : list R) (N i : nat) :
  List.length u = N -> List.length l = N -> (1 <= N)%nat ->
  ((i < N)%nat -> nth i (rev u ++ skipn 1 l) 0 = nth (N - 1 - i) u 0)
  /\ ((N <= i < 2 * N - 1)%nat ->
      nth i (rev u ++ skipn 1 l) 0 = nth (i - N + 1) l 0).
Proof.
  intros Hu Hl HN. split; intros Hi.
  - rewrite app_nth1 by (rewrite length_rev; lia).
    rewrite rev_nth by lia. f_equal. lia.
  - rewrite app_nth2 by (rewrite length_rev; lia).
    rewrite length_rev, nth_skipn. f_equal. lia.
Qed.

Lemma nth_map_R (f : R -> R) (x : list R) (i : nat) :
  (i < List.length x)%nat -> nth i (map f x) 0 = f (nth i x 0).
Proof.
  intros Hi. rewrite (nth_indep (map f x) 0 (f 0)) by (rewrite length_map; exact Hi).
  apply map_nth.
Qed.

Lemma yc_at_leading (code : string) (m p t : R) :
  parse_naca code = Ok (m, p, t) -> yc_at m p 0 = 0.
Proof.
  intros H. destruct (parse_naca_values _ _ _ _ H)
    as (d0 & d1 & d23 & _ & Hd1 & _ & _ & Hp & _).
  assert (0 <= IZR d1) by (apply IZR_le; lia).
  unfold yc_at.
  destruct (Req_dec_T m 0) as [Hm|Hm];
    [rewrite camber_at_symmetric by (left; exact Hm); reflexivity|].
  destruct (Req_dec_T p 0) as [Hp0|Hp0];
    [rewrite camber_at_symmetric by (right; exact Hp0); reflexivity|].
  rewrite camber_at_forward by lra. cbn [fst]. unfold forward_yc. ring.
Qed.

Lemma surface_at_leading (code : string) (m p t : R) :
  parse_naca code = Ok (m, p, t) ->
  xu_at m p t 0 = 0 /\ yu_at m p t 0 = 0 /\ xl_at m p t 0 = 0 /\ yl_at m p t 0 = 0.
Proof.
  intros H. unfold xu_at, yu_at, xl_at, yl_at.
  rewrite (yc_at_leading _ _ _ _ H), thickness_at_0. repeat split; ring.
Qed.

(** The loop of a code that parses, indexed through its two surfaces. *)
Lemma generate_naca4_indexed (code : string) (n : Z) (m p t : R) :
  parse_naca code = Ok (m, p, t) ->
  let N := effective_n n in
  let x := cosine_spacing N in
  exists xs ys,
    generate_naca4 code n = Ok (xs, ys, (m, p, t))
    /\ (forall i, (i < N)%nat ->
          nth i xs 0 = xu_at m p t (nth (N - 1 - i) x 0)
          /\ nth i ys 0 = yu_at m p t (nth (N - 1 - i) x 0))
    /\ (forall i, (N <= i < 2 * N - 1)%nat ->
          nth i xs 0 = xl_at m p t (nth (i - N + 1) x 0)
          /\ nth i ys 0 = yl_at m p t (nth (i - N + 1) x 0)).
Proof.
  intros H N x. pose proof (effective_n_ge3 n) as HN. fold N in HN.
  rewrite (generate_naca4_pointwise _ _ _ _ _ H). cbv zeta.
  unfold surfaces_of. cbn [xu yu xl yl]. fold N. fold x.
  eexists _, _. split; [reflexivity|].
  assert (Hlx : List.length x = N) by apply cosine_spacing_length.
  assert (Hm : forall f : R -> R, List.length (map f x) = N)
    by (intros f; rewrite length_map; exact Hlx).
  split; intros i Hi.
  - split.
    + rewrite (proj1 (loop_nth _ _ N i (Hm _) (Hm _) ltac:(lia)) Hi).
      apply nth_map_R. lia.
    + rewrite (proj1 (loop_nth _ _ N i (Hm _) (Hm _) ltac:(lia)) Hi).
      apply nth_map_R. lia.
  - split.
    + rewrite (proj2 (loop_nth _ _ N i (Hm _) (Hm _) ltac:(lia)) Hi).
      apply nth_map_R. lia.
    + rewrite (proj2 (loop_nth _ _ N i (Hm _) (Hm _) ltac:(lia)) Hi).
      apply nth_map_R. lia.
Qed.

Lemma cosine_spacing_ends (N : nat) :
  (2 <= N)%nat ->
  nth 0 (cosine_spacing N) 0 = 0 /\ nth (N - 1) (cosine_spacing N) 0 = 1.
Proof.
  intros H. split.
  - rewrite cosine_spacing_nth by lia. simpl INR. rewrite Rmult_0_l, cos_0. lra.
  - rewrite cosine_spacing_nth by lia. rewrite last_angle by exact H.
    rewrite cos_PI. lra.
Qed.

(** X14.  The order of the loop of a code that parses, with [N] points per
    surface: point [i] below [N] is the upper-surface point of parameter
    [N - 1 - i], point [i] from [N] on is the lower-surface point of
    parameter [i - N + 1].  The loop starts at the upper trailing-edge
    point, passes through the leading edge, which is the origin, at index
    [N - 1], and ends at the lower trailing-edge point; the lower-surface
    point that is left out is the origin again. *)
Theorem generate_naca4_order (code : string) (n : Z) (m p t : R) :
  parse_naca code = Ok (m, p, t) ->
  let N := effective_n n in
  let x := cosine_spacing N in
  exists xs ys,
    generate_naca4 code n = Ok (xs, ys, (m, p, t))
    /\ (forall i, (i < N)%nat ->
          nth i xs 0 = xu_at m p t (nth (N - 1 - i) x 0)
          /\ nth i ys 0 = yu_at m p t (nth (N - 1 - i) x 0))
    /\ (forall i, (N <= i < 2 * N - 1)%nat ->
          nth i xs 0 = xl_at m p t (nth (i - N + 1) x 0)
          /\ nth i ys 0 = yl_at m p t (nth (i - N + 1) x 0))
    /\ (nth 0 xs 0 = xu_at m p t 1 /\ nth 0 ys 0 = yu_at m p t 1)
    /\ (nth (N - 1) xs 0 = 0 /\ nth (N - 1) ys 0 = 0)
    /\ (nth (2 * N - 2) xs 0 = xl_at m p t 1
        /\ nth (2 * N - 2) ys 0 = yl_at m p t 1)
    /\ (xl_at m p t (nth 0 x 0) = 0 /\ yl_at m p t (nth 0 x 0) = 0).
Proof.
  intros H N x. pose proof (effective_n_ge3 n) as HN. fold N in HN.
  destruct (generate_naca4_indexed code n m p t H) as (xs & ys & Hg & Hup & Hlo).
  fold N in Hup, Hlo. fold x in Hup, Hlo.
  destruct (cosine_spacing_ends N ltac:(lia)) as [Hx0 Hx1]. fold x in Hx0, Hx1.
  destruct (surface_at_leading _ _ _ _ H) as (Hxu0 & Hyu0 & Hxl0 & Hyl0).
  exists xs, ys. split; [exact Hg|]. split; [exact Hup|]. split; [exact Hlo|].
  split.
  { destruct (Hup 0%nat ltac:(lia)) as [E1 E2].
    replace (N - 1 - 0)%nat with (N - 1)%nat in E1, E2 by lia.
    rewrite Hx1 in E1, E2. split; assumption. }
  split.
  { destruct (Hup (N - 1)%nat ltac:(lia)) as [E1 E2].
    replace (N - 1 - (N - 1))%nat with 0%nat in E1, E2 by lia.
    rewrite Hx0 in E1, E2. rewrite E1, E2. split; assumption. }
  split.
  { destruct (Hlo (2 * N - 2)%nat ltac:(lia)) as [E1 E2].
    replace (2 * N - 2 - N + 1)%nat with (N - 1)%nat in E1, E2 by lia.
    rewrite Hx1 in E1, E2. split; assumption. }
  rewrite Hx0. split; assumption.
Qed.

Lemma generate_naca4_order_witness :
  exists xs ys,
    generate_naca4 "2412" 3 = Ok (xs, ys, (2 / 100, 4 / 10, 12 / 100))
    /\ nth 2 xs 0 = 0 /\ nth 2 ys 0 = 0.
Proof.
  destruct (generate_naca4_order "2412" 3 (2 / 100) (4 / 10) (12 / 100) eq_refl)
    as (xs & ys & Hg & _ & _ & _ & [E1 E2] & _).
  exists xs, ys. split; [exact Hg|]. split; [exact E1 | exact E2].
Defined.

Lemma cos_theta_pos (m p x : R) : 0 < cos (theta_at m p x).
Proof.
  unfold theta_at. rewrite cos_atan.
  apply Rdiv_lt_0_compat; [lra | apply sqrt_one_plus_sqr_pos].
Qed.

(** X15.  The loop of a code that parses is closed, its last point equal to
    its first, exactly when the thickness is zero: at the trailing edge the
    upper point lies [0.021 * t * cos theta] above the lower one. *)
Theorem generate_naca4_closed_iff (code : string) (n : Z) (m p t : R) :
  parse_naca code = Ok (m, p, t) ->
  let N := effective_n n in
  exists xs ys,
    generate_naca4 code n = Ok (xs, ys, (m, p, t))
    /\ nth 0 ys 0 - nth (2 * N - 2) ys 0 = 0.021 * t * cos (theta_at m p 1)
    /\ ((nth 0 xs 0 = nth (2 * N - 2) xs 0 /\ nth 0 ys 0 = nth (2 * N - 2) ys 0)
        <-> t = 0).
Proof.
  intros H N. pose proof (effective_n_ge3 n) as HN. fold N in HN.
  destruct (generate_naca4_indexed code n m p t H) as (xs & ys & Hg & Hup & Hlo).
  fold N in Hup, Hlo.
  destruct (cosine_spacing_ends N ltac:(lia)) as [_ Hx1].
  destruct (Hup 0%nat ltac:(lia)) as [U1 U2].
  replace (N - 1 - 0)%nat with (N - 1)%nat in U1, U2 by lia.
  destruct (Hlo (2 * N - 2)%nat ltac:(lia)) as [L1 L2].
  replace (2 * N - 2 - N + 1)%nat with (N - 1)%nat in L1, L2 by lia.
  rewrite Hx1 in U1, U2, L1, L2.
  exists xs, ys. split; [exact Hg|].
  rewrite U1, U2, L1, L2. unfold xu_at, yu_at, xl_at, yl_at.
  rewrite thickness_at_1.
  pose proof (cos_theta_pos m p 1) as Hcos.
  split; [lra|]. split.
  - intros [_ Hy].
    assert (E : 0.021 * t * cos (theta_at m p 1) = 0) by lra.
    apply Rmult_integral in E. destruct E as [E|E]; lra.
  - intros ->. split; lra.
Qed.

Lemma generate_naca4_closed_iff_witness :
  exists xs ys,
    generate_naca4 "2400" 3 = Ok (xs, ys, (2 / 100, 4 / 10, 0 / 100))
    /\ nth 0 ys 0 - nth 4 ys 0 =
       0.021 * (0 / 100) * cos (theta_at (2 / 100) (4 / 10) 1).
Proof.
  destruct (generate_naca4_closed_iff "2400" 3 (2 / 100) (4 / 10) (0 / 100) eq_refl)
    as (xs & ys & Hg & E & _).
  exists xs, ys. split; [exact Hg | exact E].
Defined.

(** ** Symmetry of the spacing, and upper against lower surface *)

(** X16.  The parameter sequence is symmetric about 0.5: the values at [i]
    and at [n - 1 - i] add up to 1, so the points cluster the same way at the
    leading and at the trailing edge. *)
Theorem cosine_spacing_symmetric (n i : nat) :
  (2 <= n)%nat -> (i < n)%nat ->
  nth i (cosine_spacing n) 0 + nth (n - 1 - i) (cosine_spacing n) 0 = 1.
Proof.
  intros Hn Hi. rewrite !cosine_spacing_nth by lia.
  assert (E : INR (n - 1 - i) * (PI / INR (n - 1)) =
              PI - INR i * (PI / INR (n - 1))).
  { rewrite <- (last_angle n Hn) at 2.
    replace (n - 1 - i)%nat with ((n - 1) - i)%nat by lia.
    rewrite minus_INR by lia. ring. }
  rewrite E, Rtrigo_facts.cos_pi_minus. lra.
Qed.

Lemma cosine_spacing_symmetric_witness :
  nth 1 (cosine_spacing 5) 0 + nth 3 (cosine_spacing 5) 0 = 1.
Proof.
  apply (cosine_spacing_symmetric 5 1); lia.
Defined.

(** X17.  For a code that parses, at every parameter value the upper
    surface is not below the lower one: their ordinates differ by
    [2 * yt * cos theta] with [yt >= 0] and [cos theta > 0], and their
    abscissae lie symmetrically about the parameter value. *)
Theorem upper_not_below_lower (code : string) (n : Z) (m p t : R) :
  parse_naca code = Ok (m, p, t) ->
  let N := effective_n n in
  exists s,
    surface_points m p t N = Ok s
    /\ forall i, (i < N)%nat ->
         nth i (yl s) 0 <= nth i (yu s) 0
         /\ nth i (xu s) 0 + nth i (xl s) 0 = 2 * nth i (cosine_spacing N) 0.
Proof.
  intros H N.
  exists (surfaces_of m p t (cosine_spacing N)).
  split; [apply surface_points_pointwise, (parse_naca_safe _ _ _ _ _ H)|].
  intros i Hi. unfold surfaces_of. cbn [xu yu xl yl].
  assert (Hl : (i < List.length (cosine_spacing N))%nat)
    by (rewrite cosine_spacing_length; exact Hi).
  rewrite !nth_map_R by exact Hl.
  set (x := nth i (cosine_spacing N) 0).
  assert (Hx : 0 <= x <= 1).
  { pose proof (cosine_spacing_unit N) as Hu. rewrite Forall_forall in Hu.
    apply Hu, nth_In, Hl. }
  pose proof (parse_naca_thickness _ _ _ _ H) as Ht.
  pose proof (thickness_nonneg t x ltac:(lra) Hx) as Hyt.
  pose proof (cos_theta_pos m p x) as Hcos.
  unfold xu_at, yu_at, xl_at, yl_at.
  assert (0 <= thickness_at t x * cos (theta_at m p x))
    by (apply Rmult_le_pos; lra).
  split; lra.
Qed.

Lemma upper_not_below_lower_witness :
  exists s,
    surface_points (2 / 100) (4 / 10) (12 / 100) (effective_n 3) = Ok s
    /\ nth 1 (yl s) 0 <= nth 1 (yu s) 0.
Proof.
  destruct (upper_not_below_lower "2412" 3 (2 / 100) (4 / 10) (12 / 100) eq_refl)
    as (s & Hs & Hall).
  exists s. split; [exact Hs|]. apply (Hall 1%nat). vm_compute. lia.
Defined.

(** ** The extent of the output along the chord *)

Lemma xu_at_trailing_ge (code : string) (m p t : R) :
  parse_naca code = Ok (m, p, t) -> 1 <= xu_at m p t 1.
Proof.
  intros H.
  destruct (parse_naca_values _ _ _ _ H)
    as (d0 & d1 & d23 & Hd0 & Hd1 & Hd23 & Hm & Hp & Ht).
  destruct (Z.eq_dec d0 0) as [->|N0].
  { destruct (surface_x_flat m p t 1 ltac:(left; lra)) as [-> _]. lra. }
  destruct (Z.eq_dec d1 0) as [->|N1].
  { destruct (surface_x_flat m p t 1 ltac:(right; left; lra)) as [-> _]. lra. }
  destruct (Z.eq_dec d23 0) as [->|N23].
  { destruct (surface_x_flat m p t 1 ltac:(right; right; lra)) as [-> _]. lra. }
  assert (1 <= IZR d0 <= 9) by (split; apply IZR_le; lia).
  assert (1 <= IZR d1 <= 9) by (split; apply IZR_le; lia).
  assert (1 <= IZR d23) by (apply IZR_le; lia).
  apply Rlt_le, xu_at_trailing_gt; lra.
Qed.

(** ** The run of a chord within the binary64 range

    The loop is scaled by the chord in binary64, where a product can
    overflow to [inf].  No coordinate of a loop exceeds 1.5 in magnitude, so
    no product overflows when 1.5 times the chord is within the range. *)

Lemma surface_at_bounded (code : string) (m p t x : R) :
  parse_naca code = Ok (m, p, t) -> 0 <= x <= 1 ->
  Rabs (xu_at m p t x) <= 1.5 /\ Rabs (yu_at m p t x) <= 1.5
  /\ Rabs (xl_at m p t x) <= 1.5 /\ Rabs (yl_at m p t x) <= 1.5.
Proof.
  intros H Hx.
  pose proof (parse_naca_thickness _ _ _ _ H) as Ht.
  pose proof (thickness_nonneg t x (proj1 Ht) Hx) as T0.
  pose proof (thickness_upper_bound t x (proj1 Ht) Hx) as T1.
  assert (Hyc : 0 <= yc_at m p x <= 0.09).
  { destruct (parse_naca_values _ _ _ _ H)
      as (d0 & d1 & d23 & Hd0 & Hd1 & Hd23 & Hm & Hp & _).
    destruct (Z.eq_dec d0 0) as [->|N0].
    { unfold yc_at. rewrite (camber_at_symmetric m p ltac:(left; lra) x).
      cbn [fst]. lra. }
    destruct (Z.eq_dec d1 0) as [->|N1].
    { unfold yc_at. rewrite (camber_at_symmetric m p ltac:(right; lra) x).
      cbn [fst]. lra. }
    assert (1 <= IZR d0 <= 9) by (split; apply IZR_le; lia).
    assert (1 <= IZR d1 <= 9) by (split; apply IZR_le; lia).
    destruct (camber_at_range m p x) as [Hr _]; lra. }
  unfold xu_at, yu_at, xl_at, yl_at.
  set (T := thickness_at t x) in *.
  pose proof (SIN_bound (theta_at m p x)) as Hs.
  pose proof (COS_bound (theta_at m p x)) as Hc.
  set (sn := sin (theta_at m p x)) in *. set (cs := cos (theta_at m p x)) in *.
  assert (HT : 0 <= T <= 0.5) by lra.
  assert (Hsn : - 0.5 <= T * sn <= 0.5) by nra.
  assert (Hcs : - 0.5 <= T * cs <= 0.5) by nra.
  repeat split; unfold Rabs; destruct (Rcase_abs _); lra.
Qed.

Lemma loop_coordinates_bounded (code : string) (n : Z) (m p t : R)
  (xs ys : list R) (prm : R * R * R) :
  parse_naca code = Ok (m, p, t) ->
  generate_naca4 code n = Ok (xs, ys, prm) ->
  Forall (fun v => Rabs v <= 1.5) xs /\ Forall (fun v => Rabs v <= 1.5) ys.
Proof.
  intros H. rewrite (generate_naca4_pointwise code n m p t H).
  cbv zeta. unfold surfaces_of. cbn [xu yu xl yl]. intros Heq.
  set (x := cosine_spacing (effective_n n)) in *.
  assert (Hxs : xs = rev (map (xu_at m p t) x) ++ skipn 1 (map (xl_at m p t) x))
    by congruence.
  assert (Hys : ys = rev (map (yu_at m p t) x) ++ skipn 1 (map (yl_at m p t) x))
    by congruence.
  rewrite Hxs, Hys. clear Heq Hxs Hys.
  pose proof (cosine_spacing_unit (effective_n n)) as Hunit. fold x in Hunit.
  rewrite Forall_forall in Hunit.
  split; apply Forall_forall; intros v Hv;
    apply in_app_or in Hv; destruct Hv as [Hv|Hv];
    [apply in_rev in Hv | apply In_skipn in Hv
    |apply in_rev in Hv | apply In_skipn in Hv];
    apply in_map_iff in Hv; destruct Hv as (u & <- & Hu);
    apply (surface_at_bounded code m p t u H (Hunit u Hu)).
Qed.

Lemma scaled_in_range (c v : R) :
  1.5 * Rabs c <= binary64_max -> Rabs v <= 1.5 ->
  Rabs (c * v) <= binary64_max.
Proof.
  intros Hc Hv. rewrite Rabs_mult.
  pose proof (Rabs_pos c). pose proof (Rabs_pos v).
  set (M := binary64_max) in *. clearbody M. nra.
Qed.

Lemma binary64_max_pos : 0 <= binary64_max.
Proof. unfold binary64_max. lra. Qed.

Lemma embed_in_range (a : axis) (c : R) (xs ys : list R) :
  1.5 * Rabs c <= binary64_max ->
  Forall (fun v => Rabs v <= 1.5) xs -> Forall (fun v => Rabs v <= 1.5) ys ->
  Forall in_binary64_range (map (embed a c) (combine xs ys)).
Proof.
  intros Hc Hxs Hys. rewrite Forall_forall in Hxs, Hys.
  apply Forall_forall. intros q Hq.
  apply in_map_iff in Hq. destruct Hq as ([x y] & <- & Hin).
  pose proof (scaled_in_range c x Hc (Hxs x (in_combine_l _ _ _ _ Hin))) as Bx.
  pose proof (scaled_in_range c y Hc (Hys y (in_combine_r _ _ _ _ Hin))) as By.
  pose proof binary64_max_pos as B0.
  assert (Bz : Rabs 0 <= binary64_max) by (rewrite Rabs_R0; exact B0).
  unfold in_binary64_range. destruct a; cbn [embed fst snd]; auto.
Qed.

(** With a valid axis and a nonzero chord within the range, every code that
    parses gives points that pass validation, all within the range. *)
Lemma generate_embed_validate_in_range (code normal : string) (a : axis)
  (c : R) (n : Z) (m p t : R) :
  parse_naca code = Ok (m, p, t) ->
  axis_of normal = Some a ->
  c <> 0 ->
  1.5 * Rabs c <= binary64_max ->
  exists xs ys,
    generate_naca4 code n = Ok (xs, ys, (m, p, t))
    /\ List.length xs = (2 * effective_n n - 1)%nat
    /\ List.length ys = (2 * effective_n n - 1)%nat
    /\ In 0 xs /\ In (xu_at m p t 1) xs
    /\ generate_embed_validate code normal (Fin c) n =
       Ok (map inject_point (map (embed a c) (combine xs ys)))
    /\ Forall in_binary64_range (map (embed a c) (combine xs ys)).
Proof.
  intros H Ha Hc Hr.
  destruct (generate_embed_validate_ok code normal a c n m p t H Ha Hc)
    as (xs & ys & Hg & Hlx & Hly & H0 & H1 & Hv).
  exists xs, ys. do 6 (split; [assumption|]).
  destruct (loop_coordinates_bounded code n m p t xs ys _ H Hg) as [Bx By].
  apply embed_in_range; assumption.
Qed.

(** X8.  For a valid code, a valid axis and a finite chord [c], the run
    fails with [DegenerateGeometry] exactly when [c = 0], where every point
    is the origin; with any other chord such that 1.5 times its magnitude is
    within the binary64 range, it returns its points, and all their
    coordinates are within the range. *)
Theorem degenerate_iff_zero_chord (code normal : string) (a : axis) (c : R)
  (points : Z) (m p t : R) :
  parse_naca code = Ok (m, p, t) ->
  axis_of normal = Some a ->
  (points < 2 ^ 53)%Z ->
  (main_core code normal (Fin c) points = Err DegenerateGeometry <-> c = 0)
  /\ (c <> 0 -> 1.5 * Rabs c <= binary64_max ->
      exists pts,
        main_core code normal (Fin c) points = Ok (map inject_point pts)
        /\ Forall in_binary64_range pts).
Proof.
  intros H Ha Hpts. rewrite (main_core_below_2p53 _ _ _ _ Hpts).
  rewrite <- axis_of_normalized in Ha.
  set (n := Z.max 3 ((Z.max 3 points + 2) / 2)).
  split; [split|].
  - intros E. destruct (Req_dec_T c 0) as [Hc|Hc]; [exact Hc|].
    destruct (generate_embed_validate_ok code _ a c n m p t H Ha Hc)
      as (xs & ys & _ & _ & _ & _ & _ & Hv).
    rewrite Hv in E. discriminate E.
  - intros ->. apply (generate_embed_validate_zero_chord code _ a n m p t H Ha).
  - intros Hc Hr.
    destruct (generate_embed_validate_in_range code _ a c n m p t H Ha Hc Hr)
      as (xs & ys & _ & _ & _ & _ & _ & Hv & Hin).
    exists (map (embed a c) (combine xs ys)). split; assumption.
Qed.

Lemma degenerate_iff_zero_chord_witness :
  main_core "0012" "X" (Fin 0) 50 = Err DegenerateGeometry
  /\ exists pts,
       main_core "2412" "Z" (Fin 2) 50 = Ok (map inject_point pts)
       /\ Forall in_binary64_range pts.
Proof.
  split.
  - apply (degenerate_iff_zero_chord "0012" "X" AxisX 0 50
             (0 / 100) (0 / 10) (12 / 100) eq_refl eq_refl);
      reflexivity.
  - apply (degenerate_iff_zero_chord "2412" "Z" AxisZ 2 50
             (2 / 100) (4 / 10) (12 / 100) eq_refl eq_refl eq_refl).
    + lra.
    + rewrite Rabs_right by lra. unfold binary64_max. lra.
Defined.

Lemma map_to_3d_length (x2d y2d : list R) (normal : string) (chord : npfloat)
  (rows : list point3) :
  List.length x2d = List.length y2d ->
  map_to_3d x2d y2d normal chord = Ok rows ->
  List.length rows = List.length x2d.
Proof.
  intros Hlen. unfold map_to_3d.
  destruct (negb _); [discriminate|].
  assert (Hz : List.length (zeros3 x2d) = List.length x2d)
    by (unfold zeros3; apply length_map).
  assert (Hsx : List.length (scale_array chord x2d) = List.length x2d)
    by (unfold scale_array; apply length_map).
  assert (Hsy : List.length (scale_array chord y2d) = List.length x2d)
    by (unfold scale_array; rewrite length_map; congruence).
  destruct (String.eqb _ "X"); [|destruct (String.eqb _ "Y")].
  - rewrite (vstack_T_ok _ _ _ _ Hz Hsx Hsy). intros [= <-].
    apply length_combine3; assumption.
  - rewrite (vstack_T_ok _ _ _ _ Hsx Hz Hsy). intros [= <-].
    apply length_combine3; assumption.
  - rewrite (vstack_T_ok _ _ _ _ Hsx Hsy Hz). intros [= <-].
    apply length_combine3; assumption.
Qed.

(** X10.  The number of points that a run returns, whatever the code, the
    axis and the chord are, for a request of [points] points: 5 when
    [points] is at most 4, [points] when it is odd and [points + 1] when it
    is even; never fewer than asked for. *)
Theorem main_core_point_count (code normal : string) (chord : npfloat)
  (points : Z) (coords : list point3) :
  (points < 2 ^ 53)%Z ->
  main_core code normal chord points = Ok coords ->
  Z.of_nat (List.length coords) =
    (if points <=? 4 then 5
     else if Z.odd points then points else points + 1)%Z
  /\ (points <= Z.of_nat (List.length coords))%Z.
Proof.
  intros Hpts. rewrite (main_core_below_2p53 _ _ _ _ Hpts).
  set (n := Z.max 3 ((Z.max 3 points + 2) / 2)).
  unfold generate_embed_validate.
  destruct (parse_naca code) as [[[m p] t]|e] eqn:Hp;
    [|unfold generate_naca4; rewrite Hp; discriminate].
  destruct (generate_naca4_ends code n m p t Hp)
    as (xs & ys & Hg & Hlx & Hly & _ & _).
  rewrite Hg. cbn [bind].
  destruct (map_to_3d xs ys (normalized normal) chord) as [rows|e] eqn:Hm;
    [|discriminate].
  cbn [bind]. destruct (validate_geometry rows); [|discriminate].
  cbn [bind]. intros [= <-].
  assert (Hxy : List.length xs = List.length ys) by congruence.
  rewrite (map_to_3d_length _ _ _ _ _ Hxy Hm), Hlx.
  assert (Hn : Z.of_nat (effective_n n) = n) by (unfold effective_n, n; lia).
  assert (Hlen : Z.of_nat (2 * effective_n n - 1) = (2 * n - 1)%Z)
    by (pose proof (effective_n_ge3 n); lia).
  rewrite Hlen. unfold n. clear Hlen Hn.
  pose proof (Z.div_mod (Z.max 3 points + 2) 2 ltac:(lia)) as Hdm.
  pose proof (Z.mod_pos_bound (Z.max 3 points + 2) 2 ltac:(lia)) as Hmod.
  destruct (points <=? 4)%Z eqn:E4.
  - apply Z.leb_le in E4. split; lia.
  - apply Z.leb_gt in E4. destruct (Z.odd points) eqn:Eo.
    + apply Z.odd_spec in Eo. destruct Eo as (k & Hk). split; lia.
    + rewrite <- Z.negb_even in Eo. apply negb_false_iff in Eo.
      apply Z.even_spec in Eo. destruct Eo as (k & Hk). split; lia.
Qed.

Lemma main_core_point_count_witness :
  exists coords,
    main_core "2412" "Z" (Fin 1) 50 = Ok coords
    /\ Z.of_nat (List.length coords) = 51%Z.
Proof.
  destruct (generate_embed_validate_ok "2412" "Z" AxisZ 1 26
              (2 / 100) (4 / 10) (12 / 100) eq_refl eq_refl ltac:(lra))
    as (xs & ys & _ & _ & _ & _ & _ & Hv).
  assert (Hrun : main_core "2412" "Z" (Fin 1) 50 =
                 Ok (map inject_point (map (embed AxisZ 1) (combine xs ys)))).
  { rewrite (main_core_below_2p53 "2412" "Z" (Fin 1) 50 eq_refl). exact Hv. }
  eexists. split; [exact Hrun|].
  apply (main_core_point_count "2412" "Z" (Fin 1) 50 _ eq_refl Hrun).
Defined.

(** X18.  For a valid code, a valid axis and a nonzero chord such that 1.5
    times its magnitude is within the binary64 range, the output spans at
    least the chord length along the axis that carries the chord direction
    (Y when the normal is X, X otherwise): the loop contains the leading edge
    at 0 and an upper trailing-edge point at or behind 1. *)
Theorem chord_extent (code normal : string) (a : axis) (c : R) (points : Z)
  (m p t : R) :
  parse_naca code = Ok (m, p, t) ->
  axis_of normal = Some a ->
  c <> 0 ->
  1.5 * Rabs c <= binary64_max ->
  (points < 2 ^ 53)%Z ->
  exists pts,
    main_core code normal (Fin c) points = Ok (map inject_point pts)
    /\ Forall in_binary64_range pts
    /\ Rabs c <= span (match a with AxisX => colY pts | _ => colX pts end).
Proof.
  intros H Ha Hc Hr Hpts. rewrite (main_core_below_2p53 _ _ _ _ Hpts).
  rewrite <- axis_of_normalized in Ha.
  set (n := Z.max 3 ((Z.max 3 points + 2) / 2)).
  destruct (generate_embed_validate_in_range code _ a c n m p t H Ha Hc Hr)
    as (xs & ys & _ & Hlx & Hly & H0 & H1 & Hv & Hin).
  assert (Hlen : List.length xs = List.length ys) by congruence.
  exists (map (embed a c) (combine xs ys)).
  split; [exact Hv|]. split; [exact Hin|].
  pose proof (embed_columns a c xs ys Hlen) as Hcol. cbv zeta in Hcol.
  assert (Hs : Rabs c <= span (map (Rmult c) xs)).
  { pose proof (xu_at_trailing_ge _ _ _ _ H) as Hge.
    pose proof (span_ge (map (Rmult c) xs) _ _
                  (in_map (Rmult c) _ _ H0) (in_map (Rmult c) _ _ H1)) as S1.
    pose proof (span_ge (map (Rmult c) xs) _ _
                  (in_map (Rmult c) _ _ H1) (in_map (Rmult c) _ _ H0)) as S2.
    unfold Rabs. destruct (Rcase_abs c); nra. }
  destruct a; destruct Hcol as (HX & HY & HZ); rewrite ?HX, ?HY; exact Hs.
Qed.

Lemma chord_extent_witness :
  exists pts,
    main_core "2412" "Z" (Fin 2) 21 = Ok (map inject_point pts)
    /\ Rabs 2 <= span (colX pts).
Proof.
  assert (Hr : 1.5 * Rabs 2 <= binary64_max)
    by (rewrite Rabs_right by lra; unfold binary64_max; lra).
  destruct (chord_extent "2412" "Z" AxisZ 2 21 (2 / 100) (4 / 10) (12 / 100)
              eq_refl eq_refl ltac:(lra) Hr eq_refl) as (pts & Hv & _ & Hs).
  exists pts. split; [exact Hv | exact Hs].
Defined.
